(** * Felafax service: job orchestration and live-status distribution

    A shallow embedding of [felafax-service/main.py]: the job records kept in
    Redis, the request handlers that create, list and cancel them, the
    background monitor [run_felafax_training] that follows the output of the
    training process, the WebSocket [ConnectionManager] and the cost
    estimator.

    Modelling conventions.
    - Redis is a finite map from keys to job records ([gmap string
      TrainingJob]); [json.dumps]/[json.loads] of a record is the identity.
    - Python [str] values are ASCII strings; [dict]s with string keys are
      [gmap string _]; Python [list]s are lists, and where the source
      mutates a list while it iterates over it the iteration index is
      explicit.
    - Python [int]s are [Z].  A Python [float] is the rational number
      ([Qc]) it stands for, and the operations on floats are the exact ones:
      which operation raises which exception is modelled exactly (division
      by zero, a non-numeric operand, an [int] or a quotient of [int]s too
      large for a float, a digit string too long for [int]), while the
      rounding of results, signed zeros and the non-finite floats (NaN,
      infinities) are outside the model.  Statements about floats are
      written with the operations of the source, in the order of the
      source.
    - [datetime.now()] is an explicit argument of every operation that reads
      the clock.
    - An exception raised inside a [try] block is a value of [exn]; the
      enclosing handler is written out. *)

From Stdlib Require Import ZArith QArith Qcanon String Ascii List Lia.
From stdpp Require Import base option list strings numbers gmap.

Local Open Scope string_scope.
Local Open Scope Z_scope.

(** ** Python values and exceptions *)

(** What a value of type [Any] inside a JSON configuration can be.  Lists
    and nested dictionaries are not inspected by the service, so they are
    one opaque case. *)
Inductive pyval :=
| PNone
| PBool (b : bool)
| PInt (z : Z)
| PFloat (q : Qc)
| PStr (s : string)
| POther.

Global Instance pyval_eq_dec : EqDecision pyval.
Proof. solve_decision. Defined.

Inductive exn :=
| ZeroDivisionError
| TypeError
| OverflowError
| ValueError
| OSError (msg : string).

Global Instance exn_eq_dec : EqDecision exn.
Proof. solve_decision. Defined.

(** The range of a float.  The largest float is [2^1024 - 2^971]; a number
    whose magnitude reaches [2^1024 - 2^970], half way to [2^1024], rounds
    out of the range. *)
Definition float_overflow_bound : Qc := Qc_of_Z (2 ^ 1024 - 2 ^ 970).

Definition float_overflows (q : Qc) : bool :=
  bool_decide ((float_overflow_bound ≤ q)%Qc ∨ (q ≤ - float_overflow_bound)%Qc).

(** [a / b] for two Python [int]s: a zero divisor raises
    [ZeroDivisionError], and a quotient that rounds out of the range of a
    float raises [OverflowError] ("integer division result too large for a
    float"). *)
Definition int_truediv (a b : Z) : exn + Qc :=
  if decide (b = 0) then inl ZeroDivisionError
  else if float_overflows (Qc_of_Z a / Qc_of_Z b)%Qc then inl OverflowError
  else inr (Qc_of_Z a / Qc_of_Z b)%Qc.

(** [a / v] for a Python [int] [a]: true division.  [bool] is a subclass of
    [int].  With a float divisor [a] is converted first, which raises
    [OverflowError] ("int too large to convert to float") before the
    divisor is looked at; a zero divisor raises [ZeroDivisionError]; a
    non-numeric divisor raises [TypeError]. *)
Definition py_truediv (a : Z) (v : pyval) : exn + Qc :=
  match v with
  | PInt z => int_truediv a z
  | PBool b => int_truediv a (if b then 1 else 0)
  | PFloat q => if float_overflows (Qc_of_Z a) then inl OverflowError
                else if decide (q = Q2Qc 0) then inl ZeroDivisionError
                else inr (Qc_of_Z a / q)%Qc
  | PNone | PStr _ | POther => inl TypeError
  end.

(** [min(a, b)] of two numbers: Python keeps the first argument unless the
    second is strictly smaller. *)
Definition py_min (a b : Qc) : Qc :=
  if decide (b < a)%Qc then b else a.

(** [l[-n:]] for a positive literal [n]. *)
Definition py_last_n {A} (n : nat) (l : list A) : list A :=
  drop (length l - n) l.

(** [l[:limit]], where a negative [limit] counts from the end. *)
Definition py_slice_to {A} (limit : Z) (l : list A) : list A :=
  if decide (0 <= limit) then take (Z.to_nat limit) l
  else take (length l - Z.to_nat (- limit)) l.

(** ** Strings *)

Definition is_upper (c : ascii) : bool :=
  let n := nat_of_ascii c in (65 <=? n)%nat && (n <=? 90)%nat.

Definition lower_ascii (c : ascii) : ascii :=
  if is_upper c then ascii_of_nat (nat_of_ascii c + 32) else c.

(** [s.lower()] *)
Fixpoint lower (s : string) : string :=
  match s with
  | EmptyString => EmptyString
  | String c s' => String (lower_ascii c) (lower s')
  end.

(** Whitespace as [str.strip] and the regular expression class [\s]
    understand it on ASCII text: TAB, LF, VT, FF, CR, FS, GS, RS, US and
    space. *)
Definition is_space (c : ascii) : bool :=
  let n := nat_of_ascii c in
  ((9 <=? n)%nat && (n <=? 13)%nat) || ((28 <=? n)%nat && (n <=? 32)%nat).

(** The class [\d] on ASCII text. *)
Definition is_digit (c : ascii) : bool :=
  let n := nat_of_ascii c in (48 <=? n)%nat && (n <=? 57)%nat.

Fixpoint lstrip (s : string) : string :=
  match s with
  | EmptyString => EmptyString
  | String c s' => if is_space c then lstrip s' else s
  end.

Fixpoint rstrip (s : string) : string :=
  match s with
  | EmptyString => EmptyString
  | String c s' =>
      match rstrip s' with
      | EmptyString => if is_space c then EmptyString else String c EmptyString
      | r => String c r
      end
  end.

(** [s.strip()] *)
Definition strip (s : string) : string := rstrip (lstrip s).

(** [s.startswith(p)] *)
Fixpoint startswith (p s : string) : bool :=
  match p, s with
  | EmptyString, _ => true
  | String a p', String b s' => if decide (a = b) then startswith p' s' else false
  | String _ _, EmptyString => false
  end.

(** [p in s] *)
Fixpoint contains (p s : string) : bool :=
  startswith p s ||
  match s with
  | EmptyString => false
  | String _ s' => contains p s'
  end.

(** [s[n:]] *)
Fixpoint string_drop (n : nat) (s : string) : string :=
  match n, s with
  | O, _ => s
  | S n', String _ s' => string_drop n' s'
  | S _, EmptyString => EmptyString
  end.

Fixpoint skip_spaces (s : string) : string :=
  match s with
  | String c s' => if is_space c then skip_spaces s' else s
  | EmptyString => EmptyString
  end.

(** The longest prefix of digits, as a list of characters. *)
Fixpoint take_digits (s : string) : list ascii :=
  match s with
  | String c s' => if is_digit c then c :: take_digits s' else []
  | EmptyString => []
  end.

(** The number that a string of ASCII digits denotes in base ten. *)
Definition int_of_digits (ds : list ascii) : Z :=
  fold_left (fun acc c => 10 * acc + (Z.of_nat (nat_of_ascii c) - 48)) ds 0.

(** [int(ds)] for a string of ASCII digits.  The conversion raises
    [ValueError] for more than 4300 digits, leading zeros counted: the
    default limit of integer string conversion in CPython (3.11, and the
    security releases of the earlier lines). *)
Definition py_int (ds : list ascii) : exn + Z :=
  if decide (4300 < length ds)%nat then inl ValueError
  else inr (int_of_digits ds).

(** An anchored match of [step\s*(\d+)] at the start of [s]: the captured
    group.  The two repetitions are greedy and range over disjoint classes,
    so no backtracking can change the outcome. *)
Definition match_step_here (s : string) : option (list ascii) :=
  if startswith "step" s then
    match take_digits (skip_spaces (string_drop 4 s)) with
    | [] => None
    | ds => Some ds
    end
  else None.

(** [re.search(r'step\s*(\d+)', s)]: the leftmost position with a match;
    the result is group 1. *)
Fixpoint re_search_step (s : string) : option (list ascii) :=
  match match_step_here s with
  | Some ds => Some ds
  | None =>
      match s with
      | EmptyString => None
      | String _ s' => re_search_step s'
      end
  end.

(** ** Data model *)

Inductive HardwareType := TPU | TRAINIUM | GPU | AMD.
Inductive ModelPrecision := BFLOAT16 | FLOAT32.

Global Instance HardwareType_eq_dec : EqDecision HardwareType.
Proof. solve_decision. Defined.
Global Instance ModelPrecision_eq_dec : EqDecision ModelPrecision.
Proof. solve_decision. Defined.

Module FineTuningRequest.
Record t := mk {
    model : string;
    dataset : string;
    config : gmap string pyval;
    hardware : HardwareType;
    precision : ModelPrecision;
    user_id : option string
  }.
End FineTuningRequest.

Module TrainingJob.
Record t := mk {
    job_id : string;
    model : string;
    dataset : string;
    status : string;
    progress : Qc;
    hardware : HardwareType;
    precision : ModelPrecision;
    created_at : Z;
    updated_at : Z;
    config : gmap string pyval;
    logs : list string;
    metrics : gmap string pyval
  }.

(** [job_dict['status'] = s] and its siblings. *)
Definition set_status (s : string) (j : t) : t :=
    mk (job_id j) (model j) (dataset j) s (progress j) (hardware j)
       (precision j) (created_at j) (updated_at j) (config j) (logs j)
       (metrics j).
Definition set_progress (p : Qc) (j : t) : t :=
    mk (job_id j) (model j) (dataset j) (status j) p (hardware j)
       (precision j) (created_at j) (updated_at j) (config j) (logs j)
       (metrics j).
Definition set_updated_at (now : Z) (j : t) : t :=
    mk (job_id j) (model j) (dataset j) (status j) (progress j) (hardware j)
       (precision j) (created_at j) now (config j) (logs j) (metrics j).
Definition set_logs (l : list string) (j : t) : t :=
    mk (job_id j) (model j) (dataset j) (status j) (progress j) (hardware j)
       (precision j) (created_at j) (updated_at j) (config j) l (metrics j).
End TrainingJob.

Module CostEstimate.
Record t := mk {
    estimated_cost : Qc;
    currency : string;
    duration_hours : Qc;
    hardware_type : HardwareType;
    cost_per_hour : Qc
  }.
End CostEstimate.

(** What [str(e)] or a literal message puts in the [detail] of an
    [HTTPException]. *)
Inductive detail :=
| Message (s : string)
| StrOf (e : exn).

Record HTTPException := {
  status_code : Z;
  http_detail : detail
}.

(** The Redis database: job records under the keys [job:<id>]. *)
Abbreviation redis := (gmap string TrainingJob.t).

Definition job_key (job_id : string) : string := "job:" ++ job_id.

(** A decimal fraction [n / 100], for the dollar amounts of the tables. *)
Definition cents (n : Z) : Qc := (Qc_of_Z n / Qc_of_Z 100)%Qc.

Definition HARDWARE_COSTS (h : HardwareType) : Qc :=
  match h with
  | TPU => cents 322
  | TRAINIUM => cents 403
  | GPU => cents 100
  | AMD => cents 80
  end.

(** ** Request handlers *)

(** [POST /felafax/tune].  [hex8] is [uuid.uuid4().hex[:8]]; [now1] and
    [now2] are the two clock readings.  The result is the store and the
    [job_id] of the response.  The background task is
    [run_felafax_training] below, started after the response. *)
Definition start_fine_tuning (hex8 : string) (now1 now2 : Z)
    (request : FineTuningRequest.t) (r : redis) : redis * string :=
  let job_id := "job_" ++ hex8 in
  let job := TrainingJob.mk job_id
               (FineTuningRequest.model request)
               (FineTuningRequest.dataset request)
               "pending"
               (Q2Qc 0)
               (FineTuningRequest.hardware request)
               (FineTuningRequest.precision request)
               now1 now2
               (FineTuningRequest.config request)
               [] ∅ in
  (<[job_key job_id := job]> r, job_id).

(** [GET /felafax/jobs/{job_id}] *)
Definition get_job_status (job_id : string) (r : redis)
    : HTTPException + TrainingJob.t :=
  match r !! job_key job_id with
  | None => inl {| status_code := 404; http_detail := Message "Job not found" |}
  | Some job => inr job
  end.

(** The owner filter of [list_jobs]:
    [user_id is None or job.config.get('user_id') == user_id]. *)
Definition user_matches (user_id : option string) (job : TrainingJob.t) : bool :=
  match user_id with
  | None => true
  | Some u => bool_decide (TrainingJob.config job !! "user_id" = Some (PStr u))
  end.

(** The loop of [list_jobs] over the keys that [redis_client.keys("job:*")]
    returned, in the order Redis returned them. *)
Definition list_jobs_of (job_keys : list string) (user_id : option string)
    (limit : Z) (r : redis) : list TrainingJob.t :=
  filter (fun job => user_matches user_id job = true)
         (omap (fun key => r !! key) (py_slice_to limit job_keys)).

(** [redis_client.keys("job:*")].  Redis promises no order; the model fixes
    the order of the map's enumeration, and the properties below are proved
    of [list_jobs_of] for every order. *)
Definition redis_keys (r : redis) : list string :=
  filter (fun key => startswith "job:" key = true) (map fst (map_to_list r)).

(** [GET /felafax/jobs] *)
Definition list_jobs (user_id : option string) (limit : Z) (r : redis)
    : list TrainingJob.t :=
  list_jobs_of (redis_keys r) user_id limit r.

(** [DELETE /felafax/jobs/{job_id}] *)
Definition cancel_job (job_id : string) (now : Z) (r : redis)
    : redis * (HTTPException + string) :=
  match r !! job_key job_id with
  | None =>
      (r, inl {| status_code := 404; http_detail := Message "Job not found" |})
  | Some job_dict =>
      let job_dict := TrainingJob.set_status "cancelled" job_dict in
      let job_dict := TrainingJob.set_updated_at now job_dict in
      (<[job_key job_id := job_dict]> r,
       inr ("Job " ++ job_id ++ " cancelled successfully"))
  end.

(** The table of [estimate_cost]. *)
Definition model_size_factor (model : string) : option Qc :=
  if decide (model = "llama3-2-1b") then Some (Qc_of_Z 1)
  else if decide (model = "llama3-2-3b") then Some (cents 250)
  else if decide (model = "llama3-1-8b") then Some (Qc_of_Z 6)
  else if decide (model = "llama3-1-70b") then Some (Qc_of_Z 50)
  else if decide (model = "llama3-1-405b") then Some (Qc_of_Z 300)
  else None.

(** [POST /felafax/cost-estimate].  Every exception of the body is turned
    into an [HTTPException] with status 500 by the handler's [except]. *)
Definition estimate_cost (request : FineTuningRequest.t)
    : HTTPException + CostEstimate.t :=
  let base_hours :=
    default (Qc_of_Z 1) (model_size_factor (FineTuningRequest.model request)) in
  let batch_size :=
    default (PInt 8) (FineTuningRequest.config request !! "batch_size") in
  match py_truediv 8 batch_size with
  | inl e => inl {| status_code := 500; http_detail := StrOf e |}
  | inr ratio =>
      let estimated_hours := (base_hours * ratio)%Qc in
      let cost_per_hour := HARDWARE_COSTS (FineTuningRequest.hardware request) in
      let estimated_cost := (estimated_hours * cost_per_hour)%Qc in
      inr (CostEstimate.mk estimated_cost "USD" estimated_hours
             (FineTuningRequest.hardware request) cost_per_hour)
  end.

(** ** The background monitor *)

(** The pattern [job_data = redis_client.get(key); if job_data: ...;
    redis_client.set(key, json.dumps(job_dict))] that every update of the
    monitor follows: a record that is missing stays missing. *)
Definition update_job (key : string) (f : TrainingJob.t → TrainingJob.t)
    (r : redis) : redis :=
  match r !! key with
  | Some job_dict => <[key := f job_dict]> r
  | None => r
  end.

(** How a run of the training process looks from [run_felafax_training]. *)
Inductive ending :=
| Exited (return_code : Z)
| Raised (e : exn).

Inductive training_run :=
| SetupRaises (e : exn)
| Spawned (stdout : list (Z * string)) (fin : ending).

(** The progress that one output line yields, if any: the body of
    [if 'step' in line.lower() and 'loss' in line.lower()], whose bare
    [except] swallows every exception of the computation. *)
Definition parse_progress (request : FineTuningRequest.t) (line : string)
    : option Qc :=
  if contains "step" (lower line) && contains "loss" (lower line) then
    match re_search_step (lower line) with
    | Some group1 =>
        match py_int group1 with
        | inr step =>
            let max_steps :=
              default (PInt 1000)
                (FineTuningRequest.config request !! "num_steps") in
            match py_truediv step max_steps with
            | inr ratio => Some (py_min (ratio * Qc_of_Z 100)%Qc (Qc_of_Z 100))
            | inl _ => None
            end
        | inl _ => None
        end
    | None => None
    end
  else None.

(** What one iteration of the loop writes into the record, given the local
    list [logs] after the [append]. *)
Definition line_update (request : FineTuningRequest.t) (logs : list string)
    (now : Z) (line : string) (job_dict : TrainingJob.t) : TrainingJob.t :=
  let job_dict := TrainingJob.set_logs (py_last_n 100 logs) job_dict in
  let job_dict := TrainingJob.set_updated_at now job_dict in
  match parse_progress request line with
  | Some progress => TrainingJob.set_progress progress job_dict
  | None => job_dict
  end.

(** One iteration of [for line in iter(process.stdout.readline, '')]: the
    state is the local list [logs] and the store; [ev] is the clock reading
    and the line read, with its line terminator. *)
Definition monitor_line (job_id : string) (request : FineTuningRequest.t)
    (st : list string * redis) (ev : Z * string) : list string * redis :=
  let '(logs, r) := st in
  let '(now, line) := ev in
  if decide (line = EmptyString) then (logs, r)
  else
    let logs := (logs ++ [strip line])%list in
    (logs, update_job (job_key job_id) (line_update request logs now line) r).

(** [iter(readline, '')] ends at the first empty read. *)
Fixpoint until_sentinel (reads : list (Z * string)) : list (Z * string) :=
  match reads with
  | [] => []
  | (now, line) :: rest =>
      if decide (line = EmptyString) then [] else (now, line) :: until_sentinel rest
  end.

Definition monitor_lines (job_id : string) (request : FineTuningRequest.t)
    (reads : list (Z * string)) (r : redis) : list string * redis :=
  fold_left (monitor_line job_id request) (until_sentinel reads) ([], r).

Definition mark_running (now : Z) (job_dict : TrainingJob.t) : TrainingJob.t :=
  TrainingJob.set_updated_at now (TrainingJob.set_status "running" job_dict).

(** The update after [process.wait()]. *)
Definition mark_finished (return_code : Z) (now : Z) (job_dict : TrainingJob.t)
    : TrainingJob.t :=
  let job_dict :=
    TrainingJob.set_status
      (if decide (return_code = 0) then "completed" else "failed") job_dict in
  let job_dict := TrainingJob.set_progress (Qc_of_Z 100) job_dict in
  TrainingJob.set_updated_at now job_dict.

(** The update of the [except Exception] handler. *)
Definition mark_failed (now : Z) (job_dict : TrainingJob.t) : TrainingJob.t :=
  TrainingJob.set_updated_at now (TrainingJob.set_status "failed" job_dict).

(** The background task.  [now0] is the clock when the job is marked
    running, [now1] when the final status is written. *)
Definition run_felafax_training (job_id : string)
    (request : FineTuningRequest.t) (now0 : Z) (run : training_run) (now1 : Z)
    (r : redis) : redis :=
  let key := job_key job_id in
  let r := update_job key (mark_running now0) r in
  match run with
  | SetupRaises e => update_job key (mark_failed now1) r
  | Spawned stdout fin =>
      let r := (monitor_lines job_id request stdout r).2 in
      match fin with
      | Exited return_code => update_job key (mark_finished return_code now1) r
      | Raised e => update_job key (mark_failed now1) r
      end
  end.

(** ** The WebSocket connection manager *)

(** [l.remove(x)]: the first element equal to [x] goes. *)
Fixpoint py_remove (x : nat) (l : list nat) : list nat :=
  match l with
  | [] => []
  | y :: l' => if decide (y = x) then l' else y :: py_remove x l'
  end.

Module ConnectionManager.

(** [active_connections]: the sockets of each job, sockets being told apart
    by identity (a number). *)
Abbreviation t := (gmap string (list nat)).

Definition connect (websocket : nat) (job_id : string) (m : t) : t :=
  <[job_id := (default [] (m !! job_id) ++ [websocket])%list]> m.

(** The [for connection in self.active_connections[job_id]] loop of
    [send_message].  The list iterator keeps an index [i] into the list
    object, and the [except] branch removes from that same object during
    the iteration.  [send_ok c] tells whether [send_text] on socket [c]
    returns (rather than raises); [sent] collects the sockets that got the
    message, in order. *)
Fixpoint send_loop (fuel : nat) (send_ok : nat → bool) (i : nat)
    (conns : list nat) (sent : list nat) : list nat * list nat :=
  match fuel with
  | O => (conns, sent)
  | S fuel' =>
      match conns !! i with
      | None => (conns, sent)
      | Some connection =>
          if send_ok connection
          then send_loop fuel' send_ok (S i) conns (sent ++ [connection])%list
          else send_loop fuel' send_ok (S i) (py_remove connection conns) sent
      end
  end.

(** [send_message]: the new registry and the sockets that received
    [message].  The loop runs at most [length conns] times. *)
Definition send_message (send_ok : nat → bool) (message : string)
    (job_id : string) (m : t) : t * list (nat * string) :=
  match m !! job_id with
  | Some conns =>
      let '(conns', sent) := send_loop (length conns) send_ok 0 conns [] in
      (<[job_id := conns']> m, map (fun c => (c, message)) sent)
  | None => (m, [])
  end.

(** What [disconnect] does: it returns, or [list.remove] raises
    [ValueError] because the socket is not in the list. *)
Inductive disconnect_result :=
| Disconnected (m : gmap string (list nat))
| RaisesValueError.

(** [disconnect]: the socket is removed from the list of the job, and the
    key of a list that becomes empty is deleted. *)
Definition disconnect (websocket : nat) (job_id : string) (m : t)
    : disconnect_result :=
  match m !! job_id with
  | Some conns =>
      if decide (websocket ∈ conns) then
        let conns := py_remove websocket conns in
        if decide (conns = []) then Disconnected (delete job_id m)
        else Disconnected (<[job_id := conns]> m)
      else RaisesValueError
  | None => Disconnected m
  end.

End ConnectionManager.

(** ** The pattern, read declaratively *)

(** Whether the first character of [s] is in the class [P]. *)
Definition starts_with (P : ascii → bool) (s : string) : bool :=
  match s with
  | String c _ => P c
  | EmptyString => false
  end.

(** What it means that [step\s*(\d+)] matches at the start of [s] with
    group 1 equal to [group1]: [s] is "step", a run of white space, the
    digits [group1] (at least one) and a rest; both runs are as long as
    they can be, the repetitions being greedy. *)
Definition step_pattern_at_start (s : string) (group1 : list ascii) : Prop :=
  ∃ (spaces : list ascii) (rest : string),
    s = "step" ++ string_of_list_ascii spaces
          ++ string_of_list_ascii group1 ++ rest ∧
    Forall (fun c => is_space c = true) spaces ∧
    Forall (fun c => is_digit c = true) group1 ∧
    group1 ≠ [] ∧
    starts_with is_digit rest = false.

(** What [s.lower()] is on ASCII text: the string [l] of the same length in
    which the letters [A] to [Z] of [s] are replaced by [a] to [z]. *)
Definition lower_case_of (s l : string) : Prop :=
  String.length l = String.length s ∧
  ∀ (i : nat) (c : ascii),
    String.get i s = Some c →
    String.get i l
    = Some (if bool_decide (65 ≤ nat_of_ascii c ≤ 90)%nat
            then ascii_of_nat (nat_of_ascii c + 32) else c).

(** What [p in s] means: [p] occurs in [s]. *)
Definition occurs_in (p s : string) : Prop :=
  ∃ pre post : string, s = pre ++ p ++ post.

(** ** Numbers: auxiliary notions used in the statements *)

(** The number a Python value denotes in arithmetic, if it is one. *)
Definition pynum (v : pyval) : option Qc :=
  match v with
  | PInt z => Some (Qc_of_Z z)
  | PBool b => Some (Qc_of_Z (if b then 1 else 0))
  | PFloat q => Some q
  | PNone | PStr _ | POther => None
  end.

Definition batch_size_of (request : FineTuningRequest.t) : pyval :=
  default (PInt 8) (FineTuningRequest.config request !! "batch_size").

(** The step number that an output line yields: the gate on the two
    substrings, the search of the regular expression and the conversion of
    the group, as in [parse_progress]. *)
Definition extract_step (line : string) : option Z :=
  if contains "step" (lower line) && contains "loss" (lower line)
  then
    match re_search_step (lower line) with
    | Some group1 =>
        match py_int group1 with
        | inr step => Some step
        | inl _ => None
        end
    | None => None
    end
  else None.

(** Whether [step / max_steps] raises [OverflowError]: with a float divisor
    when [step] itself does not fit a float, with an [int] divisor when the
    quotient does not. *)
Definition truediv_overflows (step : Z) (max_steps : pyval) : bool :=
  match max_steps with
  | PFloat _ => float_overflows (Qc_of_Z step)
  | PInt z => float_overflows (Qc_of_Z step / Qc_of_Z z)%Qc
  | PBool b => float_overflows (Qc_of_Z step / Qc_of_Z (if b then 1 else 0))%Qc
  | PNone | PStr _ | POther => false
  end.



(** The states of a job, as the strings the service stores. *)
Definition is_terminal (status : string) : Prop :=
  status = "completed" ∨ status = "failed" ∨ status = "cancelled".

(** The class of HTTP statuses that report an invalid request (4xx). *)
Definition is_invalid_input (e : HTTPException) : bool :=
  bool_decide (400 ≤ status_code e < 500).

(** ** The end of a run: auxiliary notions *)

(** The last write of [run_felafax_training], by the way the run ends. *)
Definition final_update (run : training_run) (now : Z)
    : TrainingJob.t → TrainingJob.t :=
  match run with
  | Spawned _ (Exited return_code) => mark_finished return_code now
  | Spawned _ (Raised _) | SetupRaises _ => mark_failed now
  end.

(** The exception that ends a run, if one does. *)
Definition fault_of (run : training_run) : option exn :=
  match run with
  | SetupRaises e | Spawned _ (Raised e) => Some e
  | Spawned _ (Exited _) => None
  end.

(** ** Requests: auxiliary notions *)

(** The request with its top-level [user_id] field replaced. *)
Definition with_user_id (user_id : option string) (request : FineTuningRequest.t)
    : FineTuningRequest.t :=
  FineTuningRequest.mk (FineTuningRequest.model request)
    (FineTuningRequest.dataset request) (FineTuningRequest.config request)
    (FineTuningRequest.hardware request) (FineTuningRequest.precision request)
    user_id.

(** ** The catalogue of models *)

(** The values of the enumerations [HardwareType] and [ModelPrecision]. *)
Definition HardwareType_value (h : HardwareType) : string :=
  match h with
  | TPU => "tpu"
  | TRAINIUM => "trainium"
  | GPU => "gpu"
  | AMD => "amd"
  end.

Definition ModelPrecision_value (p : ModelPrecision) : string :=
  match p with
  | BFLOAT16 => "bfloat16"
  | FLOAT32 => "float32"
  end.

Module ModelInfo.
Record t := mk {
  name : string;
  description : string;
  hardware : list string;
  precision : list string
}.
End ModelInfo.

(** [GET /felafax/models]: the list under the key ["models"]. *)
Definition list_available_models : list ModelInfo.t :=
  [ ModelInfo.mk "llama3-2-1b" "LLaMA 3.2 1B parameters"
      ["tpu"; "trainium"; "gpu"; "amd"] ["bfloat16"; "float32"];
    ModelInfo.mk "llama3-2-3b" "LLaMA 3.2 3B parameters"
      ["tpu"; "trainium"; "gpu"; "amd"] ["bfloat16"; "float32"];
    ModelInfo.mk "llama3-1-8b" "LLaMA 3.1 8B parameters"
      ["tpu"; "trainium"; "gpu"] ["bfloat16"; "float32"];
    ModelInfo.mk "llama3-1-70b" "LLaMA 3.1 70B parameters"
      ["tpu"; "trainium"] ["bfloat16"];
    ModelInfo.mk "llama3-1-405b" "LLaMA 3.1 405B parameters"
      ["tpu"; "amd"] ["bfloat16"] ].

(** ** The command of the training process *)

(** The configuration file that [run_felafax_training] writes for a job. *)
Definition config_path (job_id : string) : string :=
  "/tmp/" ++ job_id ++ "_config.yml".

(** The argument vector [cmd] that [run_felafax_training] hands to
    [subprocess.Popen]. *)
Definition felafax_cmd (job_id : string) (request : FineTuningRequest.t)
    : list string :=
  [ "python"; "-m"; "felafax.trainer_engine.trainer";
    "--model"; FineTuningRequest.model request;
    "--dataset"; FineTuningRequest.dataset request;
    "--config"; config_path job_id;
    "--precision"; ModelPrecision_value (FineTuningRequest.precision request);
    "--hardware"; HardwareType_value (FineTuningRequest.hardware request) ].

(** ** Records: auxiliary notions *)

(** Every record of the store lies under the key of its own [job_id]. *)
Definition store_wf (r : redis) : Prop :=
  ∀ key job, r !! key = Some job → key = job_key (TrainingJob.job_id job).

(** The two records agree on everything but [status], [progress],
    [updated_at] and [logs]. *)
Definition same_description (j j' : TrainingJob.t) : Prop :=
  TrainingJob.job_id j' = TrainingJob.job_id j ∧
  TrainingJob.model j' = TrainingJob.model j ∧
  TrainingJob.dataset j' = TrainingJob.dataset j ∧
  TrainingJob.hardware j' = TrainingJob.hardware j ∧
  TrainingJob.precision j' = TrainingJob.precision j ∧
  TrainingJob.created_at j' = TrainingJob.created_at j ∧
  TrainingJob.config j' = TrainingJob.config j ∧
  TrainingJob.metrics j' = TrainingJob.metrics j.

(** The five states that the service writes. *)
Definition valid_status (status : string) : Prop :=
  status ∈ ["pending"; "running"; "completed"; "failed"; "cancelled"].

(** What holds of every record the service stores. *)
Definition record_ok (key : string) (job : TrainingJob.t) : Prop :=
  key = job_key (TrainingJob.job_id job) ∧
  valid_status (TrainingJob.status job) ∧
  (length (TrainingJob.logs job) ≤ 100)%nat ∧
  TrainingJob.metrics job = ∅.

(** The stores that the service can bring about from an empty database:
    by submissions, cancellations and runs of the background task, in any
    order and with any arguments; and also by the single writes of a
    running task (marking the job running, the update for one line, the
    write at the end, the write of the exception handler), between which
    the other operations may come in. *)
Inductive reachable : redis → Prop :=
| reachable_empty : reachable ∅
| reachable_start hex8 now1 now2 request r :
    reachable r →
    reachable (start_fine_tuning hex8 now1 now2 request r).1
| reachable_cancel job_id now r :
    reachable r →
    reachable (cancel_job job_id now r).1
| reachable_run job_id request now0 run now1 r :
    reachable r →
    reachable (run_felafax_training job_id request now0 run now1 r)
| reachable_mark_running job_id now r :
    reachable r →
    reachable (update_job (job_key job_id) (mark_running now) r)
| reachable_line job_id request logs now line r :
    reachable r →
    reachable (monitor_line job_id request (logs, r) (now, line)).2
| reachable_mark_finished job_id return_code now r :
    reachable r →
    reachable (update_job (job_key job_id) (mark_finished return_code now) r)
| reachable_mark_failed job_id now r :
    reachable r →
    reachable (update_job (job_key job_id) (mark_failed now) r).

(** The last character of [s] is in the class [P]. *)
Fixpoint ends_with (P : ascii → bool) (s : string) : bool :=
  match s with
  | EmptyString => false
  | String c EmptyString => P c
  | String _ s' => ends_with P s'
  end.

(** ** Sample inputs *)

(** The line terminator that [readline] leaves on each line. *)
Definition LF : string := String (ascii_of_nat 10) EmptyString.

Definition sample_config : gmap string pyval :=
  {[ "batch_size" := PInt 8; "num_steps" := PInt 1000 ]}.

(** A request whose owner is given in the top-level [user_id] field only. *)
Definition sample_request : FineTuningRequest.t :=
  FineTuningRequest.mk "llama3-2-1b" "alpaca" sample_config GPU BFLOAT16
    (Some "alice").

Definition sample_job_id : string := "job_0a1b2c3d".

(** The store after [sample_request] was submitted to an empty database. *)
Definition sample_store : redis :=
  (start_fine_tuning "0a1b2c3d" 10 11 sample_request ∅).1.

(** The record that [start_fine_tuning] wrote. *)
Definition sample_job : TrainingJob.t :=
  TrainingJob.mk sample_job_id "llama3-2-1b" "alpaca" "pending" (Q2Qc 0) GPU
    BFLOAT16 10 11 sample_config [] ∅.

(** The store once the background task has marked the job running. *)
Definition running_store : redis :=
  update_job (job_key sample_job_id) (mark_running 20) sample_store.

(** The store after the job ran to the end with exit code 0. *)
Definition finished_store : redis :=
  run_felafax_training sample_job_id sample_request 20
    (Spawned [] (Exited 0)) 30 sample_store.

(** The store after the job was cancelled before its task ran. *)
Definition cancelled_store : redis :=
  (cancel_job sample_job_id 15 sample_store).1.

(** The store after the job was cancelled while its process was running. *)
Definition cancelled_while_running : redis :=
  (cancel_job sample_job_id 25 running_store).1.

(** The store after the spawn of the training process raised. *)
Definition faulted_store : redis :=
  run_felafax_training sample_job_id sample_request 20
    (SetupRaises (OSError "No such file or directory")) 30 sample_store.

Definition line_500 : string := "step 500 loss 0.31" ++ LF.
Definition line_200 : string := "step 200 loss 0.52" ++ LF.


(** A request that differs from [sample_request] in its batch size. *)
Definition request_with_batch (batch_size : pyval) : FineTuningRequest.t :=
  FineTuningRequest.mk "llama3-2-1b" "alpaca"
    {[ "batch_size" := batch_size ]} GPU BFLOAT16 None.

(** Two subscribers of the sample job, the socket 1 and then the socket 2. *)
Definition sample_connections : ConnectionManager.t :=
  ConnectionManager.connect 2 sample_job_id
    (ConnectionManager.connect 1 sample_job_id ∅).

(** The socket 1 is closed: [send_text] raises on it and on no other. *)
Definition socket_1_closed (connection : nat) : bool :=
  negb (bool_decide (connection = 1%nat)).

(** A request that differs from [sample_request] in its number of steps. *)
Definition request_with_steps (num_steps : pyval) : FineTuningRequest.t :=
  FineTuningRequest.mk "llama3-2-1b" "alpaca"
    {[ "num_steps" := num_steps ]} GPU BFLOAT16 None.

(** A request whose owner is also given inside the configuration. *)
Definition bob_request : FineTuningRequest.t :=
  FineTuningRequest.mk "llama3-1-8b" "alpaca" {[ "user_id" := PStr "bob" ]}
    TPU BFLOAT16 (Some "bob").

(** The store after [bob_request] was submitted as well, the record that
    this wrote, and the two keys in the order of the submissions. *)
Definition two_job_store : redis :=
  (start_fine_tuning "ffffffff" 12 13 bob_request sample_store).1.
Definition bob_job : TrainingJob.t :=
  TrainingJob.mk "job_ffffffff" "llama3-1-8b" "alpaca" "pending" (Q2Qc 0) TPU
    BFLOAT16 12 13 {[ "user_id" := PStr "bob" ]} [] ∅.
Definition two_job_keys : list string :=
  [job_key sample_job_id; job_key "job_ffffffff"].

(** An indented line, and the same line as it is without its terminator. *)
Definition line_indented_text : string := "    loss 0.31".
Definition line_indented : string := line_indented_text ++ LF.

(** The line of [line_500] in upper case. *)
Definition line_500_upper : string := "STEP 500 LOSS 0.31" ++ LF.



(** * Properties *)

(** ** Rational arithmetic *)

Lemma Qc_of_Z_nonzero (z : Z) : z ≠ 0 → Qc_of_Z z ≠ Q2Qc 0.
Proof. rewrite <- Z2Qc_inj_0. intros Hz H. by apply Hz, Z2Qc_inj. Qed.

Lemma Qc_of_Z_nonneg (z : Z) : 0 ≤ z → (Q2Qc 0 ≤ Qc_of_Z z)%Qc.
Proof. rewrite <- Z2Qc_inj_0. apply (proj1 (Z2Qc_inj_le 0 z)). Qed.

Lemma Qc_of_Z_pos (z : Z) : 0 < z → (Q2Qc 0 < Qc_of_Z z)%Qc.
Proof. rewrite <- Z2Qc_inj_0. apply (proj1 (Z2Qc_inj_lt 0 z)). Qed.


Lemma float_overflow_bound_large : (Qc_of_Z 8 < float_overflow_bound)%Qc.
Proof. by apply (proj1 (Z2Qc_inj_lt 8 (2 ^ 1024 - 2 ^ 970))). Qed.

(** Numbers of magnitude up to 8 fit a float. *)
Lemma float_overflows_bounded (q : Qc) :
  (- Qc_of_Z 8 ≤ q)%Qc → (q ≤ Qc_of_Z 8)%Qc → float_overflows q = false.
Proof.
  intros Hlo Hhi. unfold float_overflows. apply bool_decide_eq_false.
  pose proof float_overflow_bound_large as Hb. intros [H|H].
  - apply (Qclt_not_le _ _ Hb). by etrans.
  - apply (Qclt_not_le _ _ Hb).
    apply Qcopp_le_compat in H. rewrite Qcopp_involutive in H.
    etrans; [exact H|].
    apply Qcopp_le_compat in Hlo. by rewrite Qcopp_involutive in Hlo.
Qed.

Lemma Qc_8_div_pos (z : Z) :
  0 < z → (Q2Qc 0 ≤ Qc_of_Z 8 / Qc_of_Z z)%Qc ∧
          (Qc_of_Z 8 / Qc_of_Z z ≤ Qc_of_Z 8)%Qc.
Proof.
  intros Hz. pose proof (Qc_of_Z_pos z Hz) as Hpos.
  assert (Qc_of_Z z ≠ Q2Qc 0) as Hz0 by (apply Qc_of_Z_nonzero; lia).
  split.
  - unfold Qcdiv. apply Qcmult_nonneg_nonneg; [by apply Qc_of_Z_nonneg|].
    apply Qclt_le_weak. by apply Qcinv_pos.
  - apply (Qcmult_le_mono_pos_r _ _ (Qc_of_Z z)); [done|].
    replace (Qc_of_Z 8 / Qc_of_Z z * Qc_of_Z z)%Qc with (Qc_of_Z 8)
      by (by field).
    rewrite <- (Qcmult_1_r (Qc_of_Z 8)) at 1.
    apply Qcmult_le_mono_nonneg_l; [by apply Qc_of_Z_nonneg|].
    rewrite <- Z2Qc_inj_1. apply (proj1 (Z2Qc_inj_le 1 z)). lia.
Qed.

(** The quotient [8 / z] of two [int]s always fits a float. *)
Lemma float_overflows_8_div (z : Z) :
  z ≠ 0 → float_overflows (Qc_of_Z 8 / Qc_of_Z z)%Qc = false.
Proof.
  intros Hz. assert (Q2Qc 0 ≤ Qc_of_Z 8)%Qc as H8 by by apply Qc_of_Z_nonneg.
  assert (- Qc_of_Z 8 ≤ Q2Qc 0)%Qc as H8'.
  { apply Qcopp_le_compat in H8.
    by replace (- Q2Qc 0)%Qc with (Q2Qc 0) in H8 by (by apply Qc_is_canon). }
  destruct (decide (0 < z)) as [Hpos|Hneg].
  - destruct (Qc_8_div_pos z Hpos) as [Hlo Hhi].
    apply float_overflows_bounded; [by etrans|done].
  - destruct (Qc_8_div_pos (- z)) as [Hlo Hhi]; [lia|].
    assert (Qc_of_Z 8 / Qc_of_Z z = - (Qc_of_Z 8 / Qc_of_Z (- z)))%Qc as ->.
    { rewrite Z2Qc_inj_opp. field. split; [|by apply Qc_of_Z_nonzero].
      intros H. apply (Qc_of_Z_nonzero z Hz).
      rewrite <- (Qcopp_involutive (Qc_of_Z z)), H. by apply Qc_is_canon. }
    apply float_overflows_bounded.
    + by apply Qcopp_le_compat.
    + apply Qcopp_le_compat in Hlo.
      replace (- Q2Qc 0)%Qc with (Q2Qc 0) in Hlo by (by apply Qc_is_canon).
      by etrans.
Qed.

Lemma float_overflows_8 : float_overflows (Qc_of_Z 8) = false.
Proof.
  apply float_overflows_bounded; [|done].
  etrans; [|by apply Qc_of_Z_nonneg].
  replace (Q2Qc 0) with (- Q2Qc 0)%Qc by (by apply Qc_is_canon).
  apply Qcopp_le_compat. by apply Qc_of_Z_nonneg.
Qed.

(** [py_truediv] on a divisor that is a number other than zero, when the
    division does not overflow. *)
Lemma py_truediv_pynum (a : Z) (v : pyval) (N : Qc) :
  pynum v = Some N → N ≠ Q2Qc 0 → truediv_overflows a v = false →
  py_truediv a v = inr (Qc_of_Z a / N)%Qc.
Proof.
  intros Hv HN Hov. destruct v as [|b|z|q|s|]; simplify_eq/=.
  - unfold int_truediv. destruct b.
    + rewrite decide_False by done. by rewrite Hov.
    + by destruct HN; rewrite Z2Qc_inj_0.
  - unfold int_truediv. destruct (decide (z = 0)) as [->|].
    + by destruct HN; rewrite Z2Qc_inj_0.
    + by rewrite Hov.
  - rewrite Hov. by destruct (decide (N = Q2Qc 0)).
Qed.

(** When the division overflows it raises [OverflowError] and yields no
    number. *)
Lemma py_truediv_overflow (a : Z) (v : pyval) (N : Qc) :
  pynum v = Some N → N ≠ Q2Qc 0 → truediv_overflows a v = true →
  py_truediv a v = inl OverflowError.
Proof.
  intros Hv HN Hov. destruct v as [|b|z|q|s|]; simplify_eq/=.
  - unfold int_truediv. destruct b.
    + rewrite decide_False by done. by rewrite Hov.
    + by destruct HN; rewrite Z2Qc_inj_0.
  - unfold int_truediv. destruct (decide (z = 0)) as [->|].
    + by destruct HN; rewrite Z2Qc_inj_0.
    + by rewrite Hov.
  - by rewrite Hov.
Qed.


(** The division of 8, as in [estimate_cost], never overflows. *)
Lemma truediv_overflows_8 (v : pyval) (N : Qc) :
  pynum v = Some N → N ≠ Q2Qc 0 → truediv_overflows 8 v = false.
Proof.
  intros Hv HN. destruct v as [|b|z|q|s|]; simplify_eq/=.
  - destruct b; [by apply float_overflows_8_div|].
    by destruct HN; rewrite Z2Qc_inj_0.
  - apply float_overflows_8_div. intros ->. by destruct HN; rewrite Z2Qc_inj_0.
  - apply float_overflows_8.
Qed.

Lemma py_truediv_8 (v : pyval) (N : Qc) :
  pynum v = Some N → N ≠ Q2Qc 0 →
  py_truediv 8 v = inr (Qc_of_Z 8 / N)%Qc.
Proof.
  intros Hv HN. apply py_truediv_pynum; [done..|]. by eapply truediv_overflows_8.
Qed.

(** The division of 8 by the number zero raises [ZeroDivisionError]. *)
Lemma py_truediv_8_zero (v : pyval) :
  pynum v = Some (Q2Qc 0) → py_truediv 8 v = inl ZeroDivisionError.
Proof.
  intros Hv. destruct v as [|b|z|q|s|]; simplify_eq/=.
  - unfold int_truediv. destruct b; [|done]. by apply Qc_of_Z_nonzero in Hv.
  - unfold int_truediv. destruct (decide (z = 0)) as [|Hz]; [done|].
    by apply Qc_of_Z_nonzero in Hv.
  - done.
Qed.

(** ** The search of the pattern *)

Lemma append_nil (t : string) : EmptyString ++ t = t.
Proof. reflexivity. Qed.

Lemma append_cons (a : ascii) (p t : string) :
  String a p ++ t = String a (p ++ t).
Proof. reflexivity. Qed.

Lemma startswith_true (p s : string) :
  startswith p s = true → s = p ++ string_drop (String.length p) s.
Proof.
  revert s. induction p as [|a p IH]; intros s; simpl; [done|].
  destruct s as [|b s]; [done|].
  destruct (decide (a = b)) as [->|]; [|done].
  intros H. rewrite append_cons. f_equal. by apply IH.
Qed.

Lemma startswith_app (p t : string) : startswith p (p ++ t) = true.
Proof.
  induction p as [|a p IH]; [done|].
  rewrite append_cons. simpl. by rewrite decide_True.
Qed.

Lemma string_drop_app (p t : string) : string_drop (String.length p) (p ++ t) = t.
Proof.
  induction p as [|a p IH]; [by destruct t|]. by rewrite append_cons.
Qed.

Lemma lower_ascii_spec (c : ascii) :
  lower_ascii c
  = if bool_decide (65 ≤ nat_of_ascii c ≤ 90)%nat
    then ascii_of_nat (nat_of_ascii c + 32) else c.
Proof.
  unfold lower_ascii, is_upper.
  destruct (Nat.leb_spec 65 (nat_of_ascii c)),
    (Nat.leb_spec (nat_of_ascii c) 90);
    simpl; case_bool_decide; try done; lia.
Qed.

(** [lower] is the lower-casing of ASCII text. *)
Lemma lower_case_of_lower (s l : string) : lower_case_of s l ↔ l = lower s.
Proof.
  unfold lower_case_of. split.
  - revert l. induction s as [|c s IH]; intros [|d l] [Hlen Hget]; try done.
    simpl. f_equal.
    + specialize (Hget 0%nat c eq_refl). simpl in Hget.
      rewrite lower_ascii_spec. congruence.
    + apply IH. split; [simpl in Hlen; congruence|].
      intros i c' Hi. by apply (Hget (S i)).
  - intros ->. induction s as [|c s [IHlen IHget]]; [done|]. split.
    + simpl. by rewrite IHlen.
    + intros [|i] c' Hi; simpl in *.
      * rewrite lower_ascii_spec. by simplify_eq.
      * by apply IHget.
Qed.

(** [contains] decides whether the pattern occurs in the string. *)
Lemma contains_occurs (p s : string) : contains p s = true ↔ occurs_in p s.
Proof.
  unfold occurs_in. split.
  - induction s as [|c s IH].
    + simpl. rewrite orb_false_r. intros H%startswith_true.
      exists EmptyString. eauto.
    + cbn [contains]. intros [H%startswith_true|H]%orb_true_iff.
      * exists EmptyString. eauto.
      * destruct (IH H) as (pre & post & ->). exists (String c pre), post.
        by rewrite append_cons.
  - intros (pre & post & ->). induction pre as [|c pre IH].
    + rewrite append_nil. destruct (p ++ post) eqn:E; simpl;
        rewrite <- ?E, startswith_app; done.
    + rewrite append_cons. cbn [contains]. rewrite IH. apply orb_true_r.
Qed.

Lemma digit_not_space (c : ascii) : is_digit c = true → is_space c = false.
Proof. destruct c as [[] [] [] [] [] [] [] []]; vm_compute; congruence. Qed.

Lemma skip_spaces_split (s : string) :
  ∃ spaces,
    s = string_of_list_ascii spaces ++ skip_spaces s ∧
    Forall (fun c => is_space c = true) spaces ∧
    starts_with is_space (skip_spaces s) = false.
Proof.
  induction s as [|c s (spaces & Hs & Hall & Hstop)].
  - by exists [].
  - simpl. destruct (is_space c) eqn:Hc.
    + exists (c :: spaces). simpl. rewrite ?append_cons, <- Hs.
      by repeat split; [constructor|].
    + exists []. by repeat split.
Qed.

Lemma skip_spaces_app (spaces : list ascii) (t : string) :
  Forall (fun c => is_space c = true) spaces →
  starts_with is_space t = false →
  skip_spaces (string_of_list_ascii spaces ++ t) = t.
Proof.
  intros Hall Ht. induction Hall as [|c spaces Hc _ IH]; simpl.
  - rewrite ?append_nil. destruct t as [|c t]; simpl in *; [done|]. by rewrite Ht.
  - rewrite ?append_cons. simpl. by rewrite Hc.
Qed.

Lemma take_digits_split (s : string) :
  ∃ rest,
    s = string_of_list_ascii (take_digits s) ++ rest ∧
    Forall (fun c => is_digit c = true) (take_digits s) ∧
    starts_with is_digit rest = false.
Proof.
  induction s as [|c s (rest & Hs & Hall & Hstop)].
  - by exists EmptyString.
  - simpl. destruct (is_digit c) eqn:Hc.
    + exists rest. simpl. rewrite ?append_cons, <- Hs.
      by repeat split; [constructor|].
    + exists (String c s). by repeat split.
Qed.

Lemma take_digits_app (digits : list ascii) (rest : string) :
  Forall (fun c => is_digit c = true) digits →
  starts_with is_digit rest = false →
  take_digits (string_of_list_ascii digits ++ rest) = digits.
Proof.
  intros Hall Hrest. induction Hall as [|c digits Hc _ IH]; simpl.
  - rewrite ?append_nil. destruct rest as [|c rest]; simpl in *; [done|].
    by rewrite Hrest.
  - rewrite ?append_cons. simpl. by rewrite Hc, IH.
Qed.

(** The anchored matcher computes the declarative reading of the pattern. *)
Lemma match_step_here_spec (s : string) (group1 : list ascii) :
  match_step_here s = Some group1 ↔ step_pattern_at_start s group1.
Proof.
  unfold match_step_here, step_pattern_at_start. split.
  - destruct (startswith "step" s) eqn:Hstep; [|done].
    apply startswith_true in Hstep. simpl String.length in Hstep.
    destruct (skip_spaces_split (string_drop 4 s)) as (spaces & Hsp & Hall & _).
    destruct (take_digits_split (skip_spaces (string_drop 4 s)))
      as (rest & Hds & Hdigits & Hstop).
    destruct (take_digits (skip_spaces (string_drop 4 s))) as [|d ds] eqn:Htd;
      [done|].
    intros [= <-]. exists spaces, rest. repeat split; try done.
    by rewrite <- Hds, <- Hsp.
  - intros (spaces & rest & -> & Hall & Hdigits & Hne & Hstop).
    rewrite (startswith_app "step").
    change 4%nat with (String.length "step"). rewrite string_drop_app.
    rewrite skip_spaces_app, take_digits_app; try done.
    + by destruct group1.
    + destruct group1 as [|d ds]; [done|]. simpl.
      apply Forall_cons in Hdigits as [Hd _]. by apply digit_not_space.
Qed.

(** [re_search_step] returns the match at the leftmost position that has
    one. *)
Lemma re_search_step_leftmost (s : string) (group1 : list ascii) :
  re_search_step s = Some group1 ↔
  ∃ i : nat,
    match_step_here (string_drop i s) = Some group1 ∧
    ∀ j : nat, (j < i)%nat → match_step_here (string_drop j s) = None.
Proof.
  induction s as [|c s IH].
  - simpl. split; [done|]. intros (i & Hi & _). by destruct i.
  - cbn [re_search_step]. destruct (match_step_here (String c s)) as [ds|] eqn:Hm.
    + split.
      * intros [= <-]. exists 0%nat. split; [done|]. lia.
      * intros ([|i] & Hi & Hleft).
        -- simpl in Hi. congruence.
        -- specialize (Hleft 0%nat). simpl in Hleft. rewrite Hleft in Hm by lia.
           done.
    + rewrite IH. split.
      * intros (i & Hi & Hleft). exists (S i). split; [done|].
        intros [|j] Hj; [done|]. apply Hleft. lia.
      * intros ([|i] & Hi & Hleft).
        -- simpl in Hi. congruence.
        -- exists i. split; [done|]. intros j Hj. apply (Hleft (S j)). lia.
Qed.

Lemma re_search_step_None (s : string) :
  re_search_step s = None ↔ ∀ i : nat, match_step_here (string_drop i s) = None.
Proof.
  induction s as [|c s IH].
  - simpl. split; [|done]. intros _ i. by destruct i.
  - cbn [re_search_step]. destruct (match_step_here (String c s)) as [ds|] eqn:Hm.
    + split; [done|]. intros H. specialize (H 0%nat). simpl in H. congruence.
    + rewrite IH. split.
      * intros H [|i]; [done|]. apply H.
      * intros H i. apply (H (S i)).
Qed.



(** ** The store *)

Lemma update_job_lookup (key : string) f (r : redis) (job : TrainingJob.t) :
  r !! key = Some job → update_job key f r !! key = Some (f job).
Proof. intros H. unfold update_job. rewrite H. apply lookup_insert_eq. Qed.

Lemma update_job_absent (key : string) f (r : redis) :
  r !! key = None → update_job key f r = r.
Proof. intros H. unfold update_job. by rewrite H. Qed.

Lemma update_job_lookup_ne (key key' : string) f (r : redis) :
  key ≠ key' → update_job key f r !! key' = r !! key'.
Proof.
  intros H. unfold update_job. destruct (r !! key); [|done].
  by apply lookup_insert_ne.
Qed.

(** ** One line of output *)

Section monitor.
Context (job_id : string) (request : FineTuningRequest.t).

Lemma monitor_line_lookup (logs : list string) (r : redis) (now : Z)
    (line : string) (job : TrainingJob.t) :
  line ≠ EmptyString → r !! job_key job_id = Some job →
  (monitor_line job_id request (logs, r) (now, line)).2 !! job_key job_id
  = Some (line_update request (logs ++ [strip line]) now line job).
Proof.
  intros Hline Hjob. unfold monitor_line.
  destruct (decide (line = EmptyString)); [done|]. by apply update_job_lookup.
Qed.


Lemma line_update_logs (logs : list string) (now : Z) (line : string)
    (job : TrainingJob.t) :
  TrainingJob.logs (line_update request logs now line job) = py_last_n 100 logs.
Proof. unfold line_update. by destruct (parse_progress request line). Qed.

(** The loop writes [logs], [updated_at] and [progress] only. *)
Lemma line_update_frame (logs : list string) (now : Z) (line : string)
    (job : TrainingJob.t) :
  let job' := line_update request logs now line job in
  TrainingJob.status job' = TrainingJob.status job ∧
  TrainingJob.metrics job' = TrainingJob.metrics job ∧
  TrainingJob.config job' = TrainingJob.config job.
Proof. unfold line_update. by destruct (parse_progress request line). Qed.

(** A property of the record that every line update keeps is kept by the
    whole loop, and a record that is there stays there. *)
Lemma monitor_fold_invariant (P : TrainingJob.t → Prop) :
  (∀ logs now line job, P job → P (line_update request logs now line job)) →
  ∀ (evs : list (Z * string)) (logs : list string) (r : redis) job,
    r !! job_key job_id = Some job → P job →
    ∃ job', (fold_left (monitor_line job_id request) evs (logs, r)).2
              !! job_key job_id = Some job' ∧ P job'.
Proof.
  intros HP evs. induction evs as [|[now line] evs IH]; intros logs r job Hjob HPj.
  - by exists job.
  - simpl. destruct (decide (line = EmptyString)) as [->|Hline].
    + by apply (IH logs r job).
    + eapply IH; [by apply update_job_lookup|]. by apply HP.
Qed.

Lemma monitor_lines_frame (reads : list (Z * string)) (r : redis) job :
  r !! job_key job_id = Some job →
  ∃ job', (monitor_lines job_id request reads r).2 !! job_key job_id = Some job' ∧
    TrainingJob.status job' = TrainingJob.status job ∧
    TrainingJob.metrics job' = TrainingJob.metrics job ∧
    TrainingJob.config job' = TrainingJob.config job.
Proof.
  intros Hjob. unfold monitor_lines.
  apply (monitor_fold_invariant (fun j =>
    TrainingJob.status j = TrainingJob.status job ∧
    TrainingJob.metrics j = TrainingJob.metrics job ∧
    TrainingJob.config j = TrainingJob.config job)) with (job := job); [|done..].
  intros logs now line j (Hs & Hm & Hc).
  destruct (line_update_frame logs now line j) as (-> & -> & ->). done.
Qed.

End monitor.

(** ** The log tail *)

Lemma py_last_n_length {A} (n : nat) (l : list A) :
  (length (py_last_n n l) ≤ n)%nat.
Proof. unfold py_last_n. rewrite length_drop. lia. Qed.

Lemma py_last_n_snoc {A} (n : nat) (l : list A) (x : A) :
  (0 < n)%nat → last (py_last_n n (l ++ [x])) = Some x.
Proof.
  intros Hn. unfold py_last_n. rewrite length_app. simpl.
  rewrite drop_app_le by lia. apply last_snoc.
Qed.

Lemma lstrip_starts (s : string) : starts_with is_space (lstrip s) = false.
Proof.
  induction s as [|c s IH]; [done|]. simpl.
  destruct (is_space c) eqn:Hc; [done|]. simpl. exact Hc.
Qed.

Lemma rstrip_starts (s : string) :
  starts_with is_space s = false → starts_with is_space (rstrip s) = false.
Proof.
  destruct s as [|c s]; [done|]. simpl. intros Hc.
  destruct (rstrip s); simpl; by rewrite ?Hc.
Qed.

Lemma rstrip_ends (s : string) : ends_with is_space (rstrip s) = false.
Proof.
  induction s as [|c s IH]; [done|]. simpl.
  destruct (rstrip s) as [|d t] eqn:Hr.
  - destruct (is_space c) eqn:Hc; [done|]. simpl. exact Hc.
  - exact IH.
Qed.

Lemma strip_trimmed (s : string) :
  starts_with is_space (strip s) = false ∧ ends_with is_space (strip s) = false.
Proof.
  unfold strip. split; [apply rstrip_starts, lstrip_starts|apply rstrip_ends].
Qed.

Lemma lstrip_split (s : string) :
  ∃ spaces : list ascii,
    s = string_of_list_ascii spaces ++ lstrip s ∧
    Forall (fun c => is_space c = true) spaces.
Proof.
  induction s as [|c s (spaces & Hs & Hall)].
  - by exists [].
  - simpl. destruct (is_space c) eqn:Hc.
    + exists (c :: spaces). simpl. rewrite ?append_cons, <- Hs.
      split; [done|by constructor].
    + by exists [].
Qed.

Lemma rstrip_split (s : string) :
  ∃ spaces : list ascii,
    s = rstrip s ++ string_of_list_ascii spaces ∧
    Forall (fun c => is_space c = true) spaces.
Proof.
  induction s as [|c s (spaces & Hs & Hall)].
  - by exists [].
  - simpl. destruct (rstrip s) as [|d t] eqn:Hr.
    + rewrite append_nil in Hs. destruct (is_space c) eqn:Hc.
      * exists (c :: spaces). rewrite append_nil. simpl. rewrite <- Hs.
        split; [done|by constructor].
      * exists spaces. rewrite append_cons, append_nil, <- Hs. done.
    + exists spaces. rewrite (append_cons c), <- Hs. done.
Qed.

Lemma rstrip_id (s : string) : ends_with is_space s = false → rstrip s = s.
Proof.
  induction s as [|c s IH]; [done|]. simpl.
  destruct s as [|d t]; [by intros ->|].
  intros H. by rewrite IH.
Qed.

Lemma lstrip_id (s : string) : starts_with is_space s = false → lstrip s = s.
Proof. destruct s as [|c s]; [done|]. simpl. by intros ->. Qed.

(** [strip] removes the white space around a string and nothing else. *)
Lemma strip_split (s : string) :
  ∃ pre post : list ascii,
    s = string_of_list_ascii pre ++ strip s ++ string_of_list_ascii post ∧
    Forall (fun c => is_space c = true) pre ∧
    Forall (fun c => is_space c = true) post.
Proof.
  destruct (lstrip_split s) as (pre & Hpre & Hallpre).
  destruct (rstrip_split (lstrip s)) as (post & Hpost & Hallpost).
  exists pre, post. unfold strip. by rewrite <- Hpost, <- Hpre.
Qed.

Lemma strip_id (s : string) :
  strip s = s ↔
  starts_with is_space s = false ∧ ends_with is_space s = false.
Proof.
  split.
  - intros <-. apply strip_trimmed.
  - intros [Hstart Hend]. unfold strip. by rewrite lstrip_id, rstrip_id.
Qed.

(** C8, as the code has it.  After every per-line update of the monitor
    the stored log tail holds at most 100 lines, and its last element is
    the line just read with the white space at its two ends removed, the
    line terminator included: the line is that element between two runs of
    white space, and the element neither begins nor ends with white space.
    It is the line as emitted only when the line has no white space at its
    ends. *)
Theorem log_tail_bounded_and_current (job_id : string)
    (request : FineTuningRequest.t) (logs : list string) (r : redis) (now : Z)
    (line : string) (job : TrainingJob.t) :
  line ≠ EmptyString →
  r !! job_key job_id = Some job →
  ∃ (job' : TrainingJob.t) (stored : string) (pre post : list ascii),
    (monitor_line job_id request (logs, r) (now, line)).2 !! job_key job_id
    = Some job' ∧
    (length (TrainingJob.logs job') ≤ 100)%nat ∧
    last (TrainingJob.logs job') = Some stored ∧
    line = string_of_list_ascii pre ++ stored ++ string_of_list_ascii post ∧
    Forall (fun c => is_space c = true) pre ∧
    Forall (fun c => is_space c = true) post ∧
    starts_with is_space stored = false ∧
    ends_with is_space stored = false ∧
    (stored = line ↔
     starts_with is_space line = false ∧ ends_with is_space line = false).
Proof.
  intros Hline Hjob.
  destruct (strip_split line) as (pre & post & Hsplit & Hpre & Hpost).
  eexists _, (strip line), pre, post.
  split; [by apply monitor_line_lookup|].
  rewrite line_update_logs.
  split; [apply py_last_n_length|].
  split; [apply py_last_n_snoc; lia|].
  split; [done|]. split; [done|]. split; [done|].
  split; [apply strip_trimmed|]. split; [apply strip_trimmed|].
  apply strip_id.
Qed.

(** After 150 lines, an indented line is read: the tail has 100 lines and
    ends with the text of the line. *)
Lemma log_tail_bounded_and_current_witness :
  ∃ job',
    (monitor_line sample_job_id sample_request
       (replicate 150 "warming up", sample_store)
       (21, line_indented)).2 !! job_key sample_job_id
    = Some job' ∧
    (length (TrainingJob.logs job') ≤ 100)%nat ∧
    last (TrainingJob.logs job') = Some "loss 0.31".
Proof.
  destruct (log_tail_bounded_and_current sample_job_id sample_request
              (replicate 150 "warming up") sample_store 21
              line_indented sample_job)
    as (job' & stored & pre & post & Hjob' & Hlen & Hlast & _).
  - discriminate.
  - vm_compute. reflexivity.
  - exists job'. split; [exact Hjob'|]. split; [exact Hlen|].
    vm_compute in Hjob'. injection Hjob' as <-. vm_compute. reflexivity.
Defined.

(** C8 fails on the code as worded.  The monitor reads the line
    "    loss 0.31" with its terminator: the last element of the stored log
    tail is "loss 0.31", and neither the line as read nor the line without
    its terminator is in the log tail. *)
Lemma emitted_line_not_stored_counterexample :
  ∃ job',
    (monitor_line sample_job_id sample_request ([], running_store)
       (21, line_indented)).2 !! job_key sample_job_id = Some job' ∧
    last (TrainingJob.logs job') = Some "loss 0.31" ∧
    last (TrainingJob.logs job') ≠ Some line_indented ∧
    last (TrainingJob.logs job') ≠ Some line_indented_text ∧
    ¬ (line_indented ∈ TrainingJob.logs job') ∧
    ¬ (line_indented_text ∈ TrainingJob.logs job').
Proof.
  eexists. split; [vm_compute; reflexivity|]. simpl.
  split; [vm_compute; reflexivity|].
  split; [vm_compute; discriminate|]. split; [vm_compute; discriminate|].
  split.
  - intros Hin. vm_compute in Hin. apply list_elem_of_singleton in Hin.
    discriminate.
  - intros Hin. vm_compute in Hin. apply list_elem_of_singleton in Hin.
    discriminate.
Qed.

(** The whole loop keeps every line it read, parsed or not: when it ends,
    the local list [logs] holds all lines up to the end of the stream, in
    order. *)
Lemma monitor_fold_logs (job_id : string) (request : FineTuningRequest.t)
    (evs : list (Z * string)) (logs : list string) (r : redis) :
  Forall (fun ev => ev.2 ≠ EmptyString) evs →
  (fold_left (monitor_line job_id request) evs (logs, r)).1
  = (logs ++ map (fun ev => strip ev.2) evs)%list.
Proof.
  revert logs r. induction evs as [|[now line] evs IH]; intros logs r Hne.
  - simpl. by rewrite app_nil_r.
  - apply Forall_cons in Hne as [Hline Hne]. simpl in Hline. simpl.
    destruct (decide (line = EmptyString)); [done|].
    rewrite IH by done. by rewrite <- app_assoc.
Qed.

Lemma until_sentinel_nonempty (reads : list (Z * string)) :
  Forall (fun ev => ev.2 ≠ EmptyString) (until_sentinel reads).
Proof.
  induction reads as [|[now line] reads IH]; simpl; [done|].
  destruct (decide (line = EmptyString)); [done|]. by constructor.
Qed.

Lemma monitor_lines_logs (job_id : string) (request : FineTuningRequest.t)
    (reads : list (Z * string)) (r : redis) :
  (monitor_lines job_id request reads r).1
  = map (fun ev => strip ev.2) (until_sentinel reads).
Proof.
  unfold monitor_lines. rewrite monitor_fold_logs; [done|].
  apply until_sentinel_nonempty.
Qed.

(** Once the loop has read at least one line, the stored log tail is the
    last 100 of all the lines read, in the order they were emitted. *)
Lemma monitor_lines_log_tail (job_id : string) (request : FineTuningRequest.t)
    (reads : list (Z * string)) (r : redis) (job : TrainingJob.t) :
  r !! job_key job_id = Some job →
  until_sentinel reads ≠ [] →
  ∃ job',
    (monitor_lines job_id request reads r).2 !! job_key job_id = Some job' ∧
    TrainingJob.logs job'
    = py_last_n 100 (map (fun ev => strip ev.2) (until_sentinel reads)).
Proof.
  intros Hjob Hne. unfold monitor_lines.
  pose proof (until_sentinel_nonempty reads) as Hall.
  induction (until_sentinel reads) as [|ev0 evs0 _] using rev_ind; [done|].
  clear Hne. destruct ev0 as [now line].
  apply Forall_app in Hall as [Hall Hline].
  rewrite Forall_singleton in Hline. simpl in Hline.
  rewrite fold_left_app. simpl fold_left.
  pose proof (monitor_fold_logs job_id request evs0 [] r Hall) as Hlogs.
  destruct (monitor_fold_invariant job_id request (fun _ => True)
              (fun _ _ _ _ _ => I) evs0 [] r job Hjob I) as (job0 & Hjob0 & _).
  destruct (fold_left (monitor_line job_id request) evs0 ([], r))
    as [logs0 r0].
  simpl in Hlogs, Hjob0. subst logs0.
  eexists. split; [by apply monitor_line_lookup|].
  rewrite line_update_logs. by rewrite map_app.
Qed.

(** ** Progress *)

Section progress.
Context (request : FineTuningRequest.t).


Lemma py_int_inr (ds : list ascii) (z : Z) :
  py_int ds = inr z ↔ (length ds ≤ 4300)%nat ∧ z = int_of_digits ds.
Proof.
  unfold py_int. destruct (decide (4300 < length ds)%nat); split.
  - done.
  - intros [? _]. lia.
  - intros [= <-]. split; [lia|done].
  - by intros [_ ->].
Qed.

(** A line yields a step number exactly when it passes the gate and the
    pattern matches. *)
Lemma extract_step_Some (line : string) (step : Z) :
  extract_step line = Some step ↔
  contains "step" (lower line) = true ∧ contains "loss" (lower line) = true ∧
  ∃ group1, re_search_step (lower line) = Some group1 ∧
            (length group1 ≤ 4300)%nat ∧
            step = int_of_digits group1.
Proof.
  unfold extract_step. split.
  - destruct (contains "step" (lower line)), (contains "loss" (lower line));
      simpl; try done.
    destruct (re_search_step (lower line)) as [ds|]; simpl; [|done].
    destruct (py_int ds) as [e|z] eqn:Hint; [done|].
    apply py_int_inr in Hint as [Hlen ->]. intros [= <-].
    do 2 (split; [done|]). by exists ds.
  - intros (-> & -> & ds & -> & Hlen & ->). simpl.
    by rewrite (proj2 (py_int_inr ds _) (conj Hlen eq_refl)).
Qed.




End progress.

(** The step number of a line of ASCII text, in terms of the declarative
    reading of the gate and of the pattern: "step" and "loss" occur in the
    lower-cased line, the pattern holds at a position of it and at no
    earlier one, and the group has at most 4300 digits, the most that [int]
    converts. *)
Lemma extract_step_pattern (line : string) (step : Z) :
  extract_step line = Some step ↔
  ∃ (l : string) (i : nat) (group1 : list ascii),
    lower_case_of line l ∧
    occurs_in "step" l ∧ occurs_in "loss" l ∧
    step_pattern_at_start (string_drop i l) group1 ∧
    (∀ (j : nat) (g : list ascii),
       (j < i)%nat → ¬ step_pattern_at_start (string_drop j l) g) ∧
    (length group1 ≤ 4300)%nat ∧
    step = int_of_digits group1.
Proof.
  rewrite extract_step_Some, !contains_occurs. split.
  - intros (Hstep & Hloss & group1 & Hre & Hlen & ->).
    apply re_search_step_leftmost in Hre as (i & Hi & Hleft).
    exists (lower line), i, group1.
    split; [by apply lower_case_of_lower|]. do 2 (split; [done|]).
    split; [by apply match_step_here_spec|]. split; [|done].
    intros j g Hj Hg. apply match_step_here_spec in Hg.
    rewrite Hleft in Hg by done. done.
  - intros (l & i & group1 & ->%lower_case_of_lower & Hstep & Hloss & Hi
            & Hleft & Hlen & ->).
    do 2 (split; [done|]). exists group1. split; [|done].
    apply re_search_step_leftmost. exists i.
    split; [by apply match_step_here_spec|].
    intros j Hj.
    destruct (match_step_here (string_drop j (lower line))) as [g|] eqn:Hg;
      [|done].
    apply match_step_here_spec in Hg. by destruct (Hleft j g).
Qed.

(** An upper-case line: "STEP 500 LOSS 0.31" has the step number 500, the
    pattern holding at position 0 of "step 500 loss 0.31". *)
Lemma extract_step_pattern_witness :
  extract_step line_500_upper = Some 500.
Proof.
  apply (proj2 (extract_step_pattern line_500_upper 500)).
  exists ("step 500 loss 0.31" ++ LF), 0%nat, ["5"; "0"; "0"]%char.
  split.
  { split; [reflexivity|]. intros i c.
    do 19 (destruct i as [|i]; [intros [= <-]; reflexivity|]). done. }
  split; [by exists EmptyString, (" 500 loss 0.31" ++ LF)|].
  split; [by exists "step 500 ", (" 0.31" ++ LF)|].
  split.
  { exists [" "]%char, (" loss 0.31" ++ LF).
    split; [reflexivity|]. split; [by repeat constructor|].
    split; [by repeat constructor|]. split; [done|reflexivity]. }
  split; [intros j g Hj; lia|]. split; [simpl; lia|reflexivity].
Defined.








(** ** The end of a run *)

(** A record that is in the store when the task starts is there when it
    ends; the last write is [final_update], applied to a record whose
    [metrics] and [config] are those of the start. *)
Lemma run_felafax_training_final (job_id : string)
    (request : FineTuningRequest.t) (now0 : Z) (run : training_run) (now1 : Z)
    (r : redis) (job : TrainingJob.t) :
  r !! job_key job_id = Some job →
  ∃ job_mid,
    run_felafax_training job_id request now0 run now1 r !! job_key job_id
    = Some (final_update run now1 job_mid) ∧
    TrainingJob.metrics job_mid = TrainingJob.metrics job ∧
    TrainingJob.config job_mid = TrainingJob.config job.
Proof.
  intros Hjob. unfold run_felafax_training.
  pose proof (update_job_lookup _ (mark_running now0) _ _ Hjob) as Hrun.
  destruct run as [e|stdout fin].
  - exists (mark_running now0 job). split; [|done].
    by apply update_job_lookup.
  - destruct (monitor_lines_frame job_id request stdout _ _ Hrun)
      as (job_mid & Hmid & _ & Hm & Hc).
    exists job_mid. split; [|done].
    destruct fin; by apply update_job_lookup.
Qed.

(** C4. When the output stream of the training process ends, the monitor
    takes the exit code and the stored record ends by that code alone: with
    exit code 0 the state is [completed], with any other exit code it is
    [failed], and in both cases the progress is 100.0. *)
Theorem exit_code_decides_final_state (job_id : string)
    (request : FineTuningRequest.t) (now0 : Z) (stdout : list (Z * string))
    (return_code : Z) (now1 : Z) (r : redis) (job : TrainingJob.t) :
  r !! job_key job_id = Some job →
  ∃ job',
    run_felafax_training job_id request now0
      (Spawned stdout (Exited return_code)) now1 r !! job_key job_id
    = Some job' ∧
    TrainingJob.status job'
    = (if decide (return_code = 0) then "completed" else "failed") ∧
    TrainingJob.progress job' = Qc_of_Z 100.
Proof.
  intros Hjob.
  destruct (run_felafax_training_final job_id request now0
              (Spawned stdout (Exited return_code)) now1 r job Hjob)
    as (job_mid & Hfinal & _).
  eexists. split; [exact Hfinal|]. done.
Qed.

(** The two scenarios of the specification: exit code 0 and exit code 1. *)
Lemma exit_code_decides_final_state_witness :
  (∃ job',
     run_felafax_training sample_job_id sample_request 20
       (Spawned [(21, "step 500 loss 0.31" ++ LF)] (Exited 0)) 30 sample_store
       !! job_key sample_job_id = Some job' ∧
     TrainingJob.status job' = "completed" ∧
     TrainingJob.progress job' = Qc_of_Z 100) ∧
  (∃ job',
     run_felafax_training sample_job_id sample_request 20
       (Spawned [(21, "step 500 loss 0.31" ++ LF)] (Exited 1)) 30 sample_store
       !! job_key sample_job_id = Some job' ∧
     TrainingJob.status job' = "failed" ∧
     TrainingJob.progress job' = Qc_of_Z 100).
Proof.
  split.
  - apply (exit_code_decides_final_state sample_job_id sample_request 20
             [(21, "step 500 loss 0.31" ++ LF)] 0 30 sample_store sample_job).
    vm_compute. reflexivity.
  - apply (exit_code_decides_final_state sample_job_id sample_request 20
             [(21, "step 500 loss 0.31" ++ LF)] 1 30 sample_store sample_job).
    vm_compute. reflexivity.
Defined.

(** ** Terminal states *)

(** C2, as the code has it.  [cancel_job] on a stored job writes the state
    [cancelled] and a new [updated_at] whatever the state was, so it moves
    a [completed] or [failed] job to [cancelled]; and the write at the end
    of the process sets the state by the exit code whatever the stored
    state is, [cancelled] included, be it taken alone or at the end of a
    whole run of the background task. *)
Theorem cancel_and_exit_overwrite_any_state (job_id : string) (now : Z)
    (r : redis) (job : TrainingJob.t) :
  r !! job_key job_id = Some job →
  (cancel_job job_id now r).1 !! job_key job_id
  = Some (TrainingJob.set_updated_at now (TrainingJob.set_status "cancelled" job)) ∧
  (∀ return_code,
     TrainingJob.status <$>
       update_job (job_key job_id) (mark_finished return_code now) r
         !! job_key job_id
     = Some (if decide (return_code = 0) then "completed" else "failed")) ∧
  (∀ request now0 stdout return_code,
     TrainingJob.status <$>
       run_felafax_training job_id request now0
         (Spawned stdout (Exited return_code)) now r !! job_key job_id
     = Some (if decide (return_code = 0) then "completed" else "failed")).
Proof.
  intros Hjob. split; [|split].
  - unfold cancel_job. rewrite Hjob. simpl. apply lookup_insert_eq.
  - intros return_code. by rewrite (update_job_lookup _ _ _ job).
  - intros request now0 stdout return_code.
    destruct (run_felafax_training_final job_id request now0
                (Spawned stdout (Exited return_code)) now r job Hjob)
      as (job_mid & -> & _).
    done.
Qed.

Lemma cancel_and_exit_overwrite_any_state_witness :
  (cancel_job sample_job_id 40 sample_store).1 !! job_key sample_job_id
  = Some (TrainingJob.set_updated_at 40
            (TrainingJob.set_status "cancelled" sample_job)) ∧
  (∀ return_code,
     TrainingJob.status <$>
       update_job (job_key sample_job_id) (mark_finished return_code 40)
         sample_store !! job_key sample_job_id
     = Some (if decide (return_code = 0) then "completed" else "failed")) ∧
  (∀ request now0 stdout return_code,
     TrainingJob.status <$>
       run_felafax_training sample_job_id request now0
         (Spawned stdout (Exited return_code)) 40 sample_store
         !! job_key sample_job_id
     = Some (if decide (return_code = 0) then "completed" else "failed")).
Proof.
  apply (cancel_and_exit_overwrite_any_state sample_job_id 40 sample_store
           sample_job).
  vm_compute. reflexivity.
Defined.

(** C2 fails on the code.  A job that ran to [completed] is moved to
    [cancelled] by a later [cancel_job]; a job that is cancelled while it
    runs is moved to [completed] by the write at the end of the process;
    and a job that was cancelled before its background task ran ends
    [completed]. *)
Lemma terminal_state_left_counterexample :
  (TrainingJob.status <$> finished_store !! job_key sample_job_id
   = Some "completed" ∧
   is_terminal "completed" ∧
   TrainingJob.status <$>
     (cancel_job sample_job_id 40 finished_store).1 !! job_key sample_job_id
   = Some "cancelled") ∧
  (TrainingJob.status <$> cancelled_while_running !! job_key sample_job_id
   = Some "cancelled" ∧
   TrainingJob.status <$>
     update_job (job_key sample_job_id) (mark_finished 0 30)
       cancelled_while_running !! job_key sample_job_id
   = Some "completed") ∧
  (TrainingJob.status <$> cancelled_store !! job_key sample_job_id
   = Some "cancelled" ∧
   TrainingJob.status <$>
     run_felafax_training sample_job_id sample_request 20
       (Spawned [] (Exited 0)) 30 cancelled_store !! job_key sample_job_id
   = Some "completed").
Proof.
  repeat split; try (vm_compute; reflexivity). by left.
Qed.

(** ** Faults *)

(** C7, as the code has it.  When an exception ends the run (the set-up or
    the spawn raises, or the loop does), the handler moves the stored job to
    [failed]; it writes nothing into [metrics], which are those the record
    had before. *)
Theorem fault_marks_failed_metrics_untouched (job_id : string)
    (request : FineTuningRequest.t) (now0 : Z) (run : training_run) (now1 : Z)
    (r : redis) (job : TrainingJob.t) (e : exn) :
  r !! job_key job_id = Some job →
  fault_of run = Some e →
  ∃ job',
    run_felafax_training job_id request now0 run now1 r !! job_key job_id
    = Some job' ∧
    TrainingJob.status job' = "failed" ∧
    TrainingJob.metrics job' = TrainingJob.metrics job.
Proof.
  intros Hjob Hfault.
  destruct (run_felafax_training_final job_id request now0 run now1 r job Hjob)
    as (job_mid & Hfinal & Hm & _).
  eexists. split; [exact Hfinal|].
  destruct run as [e'|stdout [rc|e']]; simplify_eq/=; done.
Qed.

Lemma fault_marks_failed_metrics_untouched_witness :
  ∃ job',
    run_felafax_training sample_job_id sample_request 20
      (Spawned [(21, "step 500 loss 0.31" ++ LF)] (Raised (OSError "read")))
      30 sample_store !! job_key sample_job_id = Some job' ∧
    TrainingJob.status job' = "failed" ∧
    TrainingJob.metrics job' = TrainingJob.metrics sample_job.
Proof.
  apply (fault_marks_failed_metrics_untouched sample_job_id sample_request 20
           (Spawned [(21, "step 500 loss 0.31" ++ LF)] (Raised (OSError "read")))
           30 sample_store sample_job (OSError "read")).
  - vm_compute. reflexivity.
  - reflexivity.
Defined.

(** C7 fails on the code.  The spawn raises for a freshly submitted job:
    the job ends [failed] and its [metrics] map is empty, so the error is
    recorded nowhere in it. *)
Lemma fault_not_recorded_counterexample :
  TrainingJob.status <$> faulted_store !! job_key sample_job_id = Some "failed" ∧
  TrainingJob.metrics <$> faulted_store !! job_key sample_job_id = Some ∅.
Proof. split; vm_compute; reflexivity. Qed.

(** ** The cost estimate *)

(** C5, as the code has it.  [estimate_cost] reads no stored state and
    writes none.  With a batch size of zero the division raises and the
    handler answers with its general error, status 500 carrying the
    [ZeroDivisionError]; with any other number as batch size, positive or
    negative, the operation succeeds. *)
Theorem estimate_cost_by_batch_size (request : FineTuningRequest.t) (b : Qc) :
  pynum (batch_size_of request) = Some b →
  (b = Q2Qc 0 →
   estimate_cost request
   = inl {| status_code := 500; http_detail := StrOf ZeroDivisionError |}) ∧
  (b ≠ Q2Qc 0 → ∃ estimate, estimate_cost request = inr estimate).
Proof.
  intros Hb. unfold estimate_cost. fold (batch_size_of request). split.
  - intros ->. by rewrite py_truediv_8_zero.
  - intros Hb0. rewrite (py_truediv_8 _ b) by done. eauto.
Qed.

Lemma estimate_cost_by_batch_size_witness :
  (Qc_of_Z 4 = Q2Qc 0 →
   estimate_cost (request_with_batch (PInt 4))
   = inl {| status_code := 500; http_detail := StrOf ZeroDivisionError |}) ∧
  (Qc_of_Z 4 ≠ Q2Qc 0 →
   ∃ estimate, estimate_cost (request_with_batch (PInt 4)) = inr estimate).
Proof.
  apply (estimate_cost_by_batch_size (request_with_batch (PInt 4)) (Qc_of_Z 4)).
  reflexivity.
Defined.

(** C5 fails on the code.  A batch size of 0 is answered with status 500,
    which is not in the class of invalid-input answers; a batch size of -8
    is not rejected at all: the estimate is -1 hour. *)
Lemma batch_size_not_validated_counterexample :
  (∃ e, estimate_cost (request_with_batch (PInt 0)) = inl e ∧
        status_code e = 500 ∧ is_invalid_input e = false) ∧
  (∃ estimate, estimate_cost (request_with_batch (PInt (-8))) = inr estimate ∧
               CostEstimate.duration_hours estimate = Qc_of_Z (-1)).
Proof.
  split.
  - eexists. split; [reflexivity|]. split; reflexivity.
  - eexists. split; [reflexivity|]. apply Qc_is_canon. vm_compute. reflexivity.
Qed.

(** C6. For a batch size [b > 0] (the hardware type of a request is one of
    the four known ones) the estimate is [hours = base_hours * (8 / b)] and
    [cost = hours * HARDWARE_COSTS hardware], where [base_hours] comes from
    the model table and is 1.0 for a model that is not in it. *)
Theorem estimate_cost_formula (request : FineTuningRequest.t) (b : Qc) :
  pynum (batch_size_of request) = Some b →
  (Q2Qc 0 < b)%Qc →
  ∃ estimate,
    estimate_cost request = inr estimate ∧
    CostEstimate.duration_hours estimate
    = (default (Qc_of_Z 1) (model_size_factor (FineTuningRequest.model request))
       * (Qc_of_Z 8 / b))%Qc ∧
    CostEstimate.estimated_cost estimate
    = (CostEstimate.duration_hours estimate
       * HARDWARE_COSTS (FineTuningRequest.hardware request))%Qc ∧
    CostEstimate.cost_per_hour estimate
    = HARDWARE_COSTS (FineTuningRequest.hardware request) ∧
    CostEstimate.hardware_type estimate = FineTuningRequest.hardware request.
Proof.
  intros Hb Hpos.
  assert (b ≠ Q2Qc 0) as Hb0 by (intros ->; by apply Qclt_not_eq in Hpos).
  unfold estimate_cost. fold (batch_size_of request).
  rewrite (py_truediv_8 _ b) by done. eexists. split; [reflexivity|].
  done.
Qed.

(** The scenario of the specification: model "llama3-2-1b" on a GPU with
    batch size 8 is estimated at 1.0 hour and 1.00 USD. *)
Lemma estimate_cost_formula_witness :
  ∃ estimate,
    estimate_cost sample_request = inr estimate ∧
    CostEstimate.duration_hours estimate = Qc_of_Z 1 ∧
    CostEstimate.estimated_cost estimate = Qc_of_Z 1 ∧
    CostEstimate.currency estimate = "USD".
Proof.
  destruct (estimate_cost_formula sample_request (Qc_of_Z 8))
    as (estimate & Heq & Hhours & Hcost & _).
  - reflexivity.
  - by apply Qc_of_Z_pos.
  - exists estimate. split; [exact Heq|].
    rewrite Hcost, Hhours.
    split; [by apply Qc_is_canon|]. split; [by apply Qc_is_canon|].
    vm_compute in Heq. by injection Heq as <-.
Defined.

(** ** Sending to the subscribers *)

Lemma py_remove_length (x : nat) (l : list nat) :
  (length (py_remove x l) ≤ length l)%nat.
Proof.
  induction l as [|y l IH]; simpl; [done|].
  destruct (decide (y = x)); simpl; lia.
Qed.

(** The loop of [send_message] ends within [length conns - i] iterations:
    any two amounts of fuel that large give the same result. *)
Lemma send_loop_fuel (send_ok : nat → bool) (fuel : nat) :
  ∀ (fuel' i : nat) (conns sent : list nat),
    (length conns - i ≤ fuel)%nat →
    (length conns - i ≤ fuel')%nat →
    ConnectionManager.send_loop fuel send_ok i conns sent
    = ConnectionManager.send_loop fuel' send_ok i conns sent.
Proof.
  induction fuel as [|fuel IH]; intros fuel' i conns sent Hfuel Hfuel'.
  - destruct fuel' as [|fuel']; [done|]. simpl.
    by rewrite (lookup_ge_None_2 conns i) by lia.
  - simpl. destruct (conns !! i) as [c|] eqn:Hc.
    + pose proof (lookup_lt_Some _ _ _ Hc) as Hi.
      destruct fuel' as [|fuel']; [lia|]. simpl. rewrite Hc.
      pose proof (py_remove_length c conns).
      destruct (send_ok c); apply IH; lia.
    + destruct fuel' as [|fuel']; [done|]. simpl. by rewrite Hc.
Qed.

(** When no delivery fails, every subscriber is sent the message, in
    order, and the list is left as it was. *)
Lemma send_loop_all_ok (send_ok : nat → bool) (conns : list nat) :
  Forall (fun c => send_ok c = true) conns →
  ∀ (done_ todo sent : list nat),
    conns = (done_ ++ todo)%list →
    ConnectionManager.send_loop (length todo) send_ok (length done_) conns sent
    = (conns, (sent ++ todo)%list).
Proof.
  intros Hok done_ todo. revert done_.
  induction todo as [|c todo IH]; intros done_ sent ->.
  - simpl. by rewrite !app_nil_r.
  - simpl. rewrite list_lookup_middle by done.
    pose proof Hok as Hc.
    rewrite Forall_app, Forall_cons in Hc. destruct Hc as (_ & -> & _).
    replace (S (length done_)) with (length (done_ ++ [c])%list)
      by (rewrite length_app; simpl; lia).
    rewrite IH by (by rewrite <- app_assoc).
    by rewrite <- app_assoc.
Qed.

(** Removing the element found at index [i] shifts what follows it: the
    iteration that goes on at index [i + 1] of the shortened list goes on at
    index [i + 2] of the former one. *)
Lemma py_remove_drop (c : nat) (l : list nat) (i : nat) :
  l !! i = Some c → drop (S i) (py_remove c l) = drop (S (S i)) l.
Proof.
  revert i. induction l as [|y l IH]; intros i Hi; [done|].
  simpl. destruct (decide (y = c)) as [->|Hy]; [done|].
  destruct i as [|i]; [by simplify_eq/=|].
  simpl in Hi. by rewrite <- (IH i Hi).
Qed.

Lemma send_loop_step (send_ok : nat → bool) (fuel i : nat)
    (conns sent : list nat) (c : nat) :
  conns !! i = Some c →
  ConnectionManager.send_loop (S fuel) send_ok i conns sent
  = if send_ok c
    then ConnectionManager.send_loop fuel send_ok (S i) conns (sent ++ [c])
    else ConnectionManager.send_loop fuel send_ok (S i) (py_remove c conns) sent.
Proof. intros Hc. simpl. by rewrite Hc. Qed.

(** Who is sent the message: only sockets from index [i] on, on which
    delivery succeeds. *)
Lemma send_loop_sent (send_ok : nat → bool) (fuel : nat) :
  ∀ (i : nat) (conns sent : list nat) (x : nat),
    x ∈ (ConnectionManager.send_loop fuel send_ok i conns sent).2 →
    x ∈ sent ∨ (x ∈ drop i conns ∧ send_ok x = true).
Proof.
  induction fuel as [|fuel IH]; intros i conns sent x; simpl; [by left|].
  destruct (conns !! i) as [c|] eqn:Hc; [|by left].
  pose proof (drop_S _ _ _ Hc) as Hdrop.
  destruct (send_ok c) eqn:Hok; intros Hx; apply IH in Hx.
  - rewrite Hdrop. destruct Hx as [Hx|[Hx ?]].
    + apply elem_of_app in Hx as [?|Hx]; [by left|].
      apply list_elem_of_singleton in Hx as ->. right. split; [|done].
      apply list_elem_of_here.
    + right. split; [|done]. by apply list_elem_of_further.
  - destruct Hx as [?|[Hx ?]]; [by left|]. right. split; [|done].
    rewrite (py_remove_drop c conns i Hc) in Hx.
    rewrite Hdrop. apply list_elem_of_further.
    rewrite <- (take_drop 1 (drop (S i) conns)), drop_drop.
    apply elem_of_app. right. by rewrite Nat.add_1_r.
Qed.

(** The defect in general: when delivery to the first subscriber fails,
    the subscriber next to it is passed over, unless it is subscribed a
    second time further on. *)
Lemma send_message_passes_over_next (send_ok : nat → bool)
    (message job_id : string) (m : ConnectionManager.t)
    (c d : nat) (rest : list nat) :
  m !! job_id = Some (c :: d :: rest) →
  send_ok c = false →
  d ∉ rest →
  (d, message) ∉ (ConnectionManager.send_message send_ok message job_id m).2.
Proof.
  intros Hm Hc Hd. unfold ConnectionManager.send_message. rewrite Hm.
  change (length (c :: d :: rest)) with (S (S (length rest))).
  rewrite (send_loop_step send_ok _ 0 _ _ c) by done. rewrite Hc.
  replace (py_remove c (c :: d :: rest)) with (d :: rest)
    by (simpl; by rewrite decide_True).
  pose proof (send_loop_sent send_ok (S (length rest)) 1 (d :: rest) [] d)
    as Hsent.
  destruct (ConnectionManager.send_loop (S (length rest)) send_ok 1
              (d :: rest) []) as [conns' sent].
  simpl in *. intros Hin. apply list_elem_of_fmap in Hin as (x & [= <-] & Hx).
  destruct (Hsent Hx) as [Hnil|[Hrest _]].
  - by apply elem_of_nil in Hnil.
  - by apply Hd.
Qed.

(** C9 fails on the code.  The job has the subscribers 1 and 2, in this
    order, and socket 1 is closed.  [send_message] removes socket 1 while
    it iterates over the list, the iteration passes over socket 2, and
    nobody is sent the message, although delivery to socket 2 would
    succeed and socket 2 stays subscribed. *)
Theorem send_message_skips_subscriber_after_failure :
  sample_connections !! sample_job_id = Some [1; 2]%nat ∧
  socket_1_closed 1 = false ∧
  socket_1_closed 2 = true ∧
  ConnectionManager.send_message socket_1_closed "snapshot" sample_job_id
    sample_connections
  = ({[ sample_job_id := [2]%nat ]}, []).
Proof. repeat split; vm_compute; reflexivity. Qed.

Lemma send_message_all_ok (send_ok : nat → bool) (message job_id : string)
    (m : ConnectionManager.t) (conns : list nat) :
  m !! job_id = Some conns →
  Forall (fun c => send_ok c = true) conns →
  ConnectionManager.send_message send_ok message job_id m
  = (<[job_id := conns]> m, map (fun c => (c, message)) conns).
Proof.
  intros Hm Hok. unfold ConnectionManager.send_message. rewrite Hm.
  pose proof (send_loop_all_ok send_ok conns Hok [] conns [] eq_refl) as Hloop.
  simpl in Hloop. by rewrite Hloop.
Qed.

(** ** Submitting and listing *)

Lemma user_matches_Some (u : string) (job : TrainingJob.t) :
  user_matches (Some u) job = true ↔
  TrainingJob.config job !! "user_id" = Some (PStr u).
Proof. unfold user_matches. by rewrite bool_decide_eq_true. Qed.

(** Whatever keys Redis returns and in whatever order, a user-filtered
    list holds only jobs whose configuration names that user. *)
Lemma list_jobs_of_owner (job_keys : list string) (u : string) (limit : Z)
    (r : redis) (job : TrainingJob.t) :
  job ∈ list_jobs_of job_keys (Some u) limit r →
  TrainingJob.config job !! "user_id" = Some (PStr u).
Proof.
  unfold list_jobs_of. rewrite list_elem_of_filter.
  intros [Hmatch _]. by apply user_matches_Some.
Qed.

(** C10. [start_fine_tuning] stores nothing of the request's [user_id]
    field: the stored record is the same whatever that field holds, and its
    [config] is the request's [config].  So a user-filtered list returns
    the job only if the request's [config] itself has the key ["user_id"]
    with that user, and never when [config] has no such key. *)
Theorem submit_does_not_store_user_id (hex8 : string) (now1 now2 : Z)
    (request : FineTuningRequest.t) (r : redis) :
  ∃ job,
    (start_fine_tuning hex8 now1 now2 request r).1
      !! job_key (start_fine_tuning hex8 now1 now2 request r).2 = Some job ∧
    TrainingJob.config job = FineTuningRequest.config request ∧
    (∀ user_id,
       start_fine_tuning hex8 now1 now2 (with_user_id user_id request) r
       = start_fine_tuning hex8 now1 now2 request r) ∧
    (∀ job_keys u limit,
       job ∈ list_jobs_of job_keys (Some u) limit
               (start_fine_tuning hex8 now1 now2 request r).1 →
       FineTuningRequest.config request !! "user_id" = Some (PStr u)) ∧
    (FineTuningRequest.config request !! "user_id" = None →
     ∀ job_keys u limit,
       job ∉ list_jobs_of job_keys (Some u) limit
               (start_fine_tuning hex8 now1 now2 request r).1).
Proof.
  eexists. split; [apply lookup_insert_eq|]. split; [done|].
  split; [done|]. split.
  - intros job_keys u limit Hin. by apply list_jobs_of_owner in Hin.
  - intros Hnone job_keys u limit Hin.
    apply list_jobs_of_owner in Hin. simpl in Hin. congruence.
Qed.

(** The sample request names its owner in the top-level field only; the
    job is in the unfiltered list and in no user-filtered one. *)
Lemma submit_does_not_store_user_id_witness :
  FineTuningRequest.user_id sample_request = Some "alice" ∧
  sample_job ∈ list_jobs None 50 sample_store ∧
  sample_job ∉ list_jobs (Some "alice") 50 sample_store.
Proof.
  destruct (submit_does_not_store_user_id "0a1b2c3d" 10 11 sample_request ∅)
    as (job & Hjob & _ & _ & _ & Hnever).
  assert (job = sample_job) as ->.
  { apply (inj Some). rewrite <- Hjob. vm_compute. reflexivity. }
  split; [reflexivity|]. split.
  - vm_compute. apply list_elem_of_here.
  - apply Hnever. reflexivity.
Defined.

(** * Further properties *)

(** ** Submitting, reading and cancelling *)

Lemma job_key_inj (a b : string) : job_key a = job_key b → a = b.
Proof. unfold job_key. intros H. by simplify_eq/=. Qed.

(** Round trip of submission: [get_job_status] on the identifier that
    [start_fine_tuning] returns gives a pending record with progress 0, no
    logs and no metrics, described by the request, whatever the store held
    before, that identifier included; and every other key of the store is
    as it was. *)
Theorem start_then_get_job_status (hex8 : string) (now1 now2 : Z)
    (request : FineTuningRequest.t) (r : redis) :
  (start_fine_tuning hex8 now1 now2 request r).2 = "job_" ++ hex8 ∧
  get_job_status (start_fine_tuning hex8 now1 now2 request r).2
    (start_fine_tuning hex8 now1 now2 request r).1
  = inr (TrainingJob.mk ("job_" ++ hex8)
           (FineTuningRequest.model request)
           (FineTuningRequest.dataset request) "pending" (Q2Qc 0)
           (FineTuningRequest.hardware request)
           (FineTuningRequest.precision request) now1 now2
           (FineTuningRequest.config request) [] ∅) ∧
  ∀ key, key ≠ job_key ("job_" ++ hex8) →
         (start_fine_tuning hex8 now1 now2 request r).1 !! key = r !! key.
Proof.
  split; [done|]. split.
  - unfold get_job_status, start_fine_tuning. simpl.
    by rewrite lookup_insert_eq.
  - intros key Hkey. unfold start_fine_tuning. simpl.
    by rewrite lookup_insert_ne.
Qed.

Lemma start_then_get_job_status_witness :
  (start_fine_tuning "ffffffff" 40 41 sample_request finished_store).1
    !! job_key sample_job_id
  = finished_store !! job_key sample_job_id.
Proof.
  apply (proj2 (proj2 (start_then_get_job_status "ffffffff" 40 41
                         sample_request finished_store))).
  discriminate.
Defined.

(** [cancel_job] in full.  For an identifier without record it answers 404
    and leaves the store as it is.  For a stored job it answers with the
    success message, and what [get_job_status] then returns is the former
    record with [status] set to [cancelled] and [updated_at] to the clock:
    progress, logs and the description of the job are kept.  Records under
    other keys are never touched. *)
Theorem cancel_job_outcome (job_id : string) (now : Z) (r : redis) :
  (r !! job_key job_id = None →
   cancel_job job_id now r
   = (r, inl {| status_code := 404; http_detail := Message "Job not found" |})) ∧
  (∀ job, r !! job_key job_id = Some job →
     (cancel_job job_id now r).2
     = inr ("Job " ++ job_id ++ " cancelled successfully") ∧
     ∃ job',
       get_job_status job_id (cancel_job job_id now r).1 = inr job' ∧
       TrainingJob.status job' = "cancelled" ∧
       TrainingJob.updated_at job' = now ∧
       TrainingJob.progress job' = TrainingJob.progress job ∧
       TrainingJob.logs job' = TrainingJob.logs job ∧
       same_description job job') ∧
  (∀ key, key ≠ job_key job_id →
     (cancel_job job_id now r).1 !! key = r !! key).
Proof.
  unfold cancel_job, get_job_status. split; [|split].
  - by intros ->.
  - intros job ->. split; [done|]. simpl. rewrite lookup_insert_eq.
    eexists. split; [done|]. by repeat split.
  - intros key Hkey. destruct (r !! job_key job_id); [|done]. simpl.
    by rewrite lookup_insert_ne.
Qed.

Lemma cancel_job_outcome_witness :
  (cancel_job sample_job_id 40 sample_store).2
  = inr ("Job " ++ sample_job_id ++ " cancelled successfully") ∧
  ∃ job',
    get_job_status sample_job_id (cancel_job sample_job_id 40 sample_store).1
    = inr job' ∧
    TrainingJob.status job' = "cancelled" ∧
    TrainingJob.updated_at job' = 40 ∧
    TrainingJob.progress job' = TrainingJob.progress sample_job ∧
    TrainingJob.logs job' = TrainingJob.logs sample_job ∧
    same_description sample_job job'.
Proof.
  apply (proj1 (proj2 (cancel_job_outcome sample_job_id 40 sample_store))).
  vm_compute. reflexivity.
Defined.

(** Cancelling again changes nothing but the time stamp: two cancellations
    leave the store that the later one alone would leave. *)
Theorem cancel_job_twice (job_id : string) (now1 now2 : Z) (r : redis) :
  (cancel_job job_id now2 (cancel_job job_id now1 r).1).1
  = (cancel_job job_id now2 r).1.
Proof.
  unfold cancel_job. destruct (r !! job_key job_id) as [job|] eqn:Hjob.
  - simpl. rewrite lookup_insert_eq. simpl. by rewrite insert_insert_eq.
  - simpl. by rewrite Hjob.
Qed.

(** ** What the background task leaves alone *)

Lemma monitor_fold_other (job_id : string) (request : FineTuningRequest.t)
    (evs : list (Z * string)) (logs : list string) (r : redis) (key : string) :
  key ≠ job_key job_id →
  (fold_left (monitor_line job_id request) evs (logs, r)).2 !! key = r !! key.
Proof.
  intros Hkey. revert logs r.
  induction evs as [|[now line] evs IH]; intros logs r; [done|].
  simpl. destruct (decide (line = EmptyString)); [apply IH|].
  rewrite IH. by apply update_job_lookup_ne.
Qed.

Lemma monitor_fold_absent (job_id : string) (request : FineTuningRequest.t)
    (evs : list (Z * string)) (logs : list string) (r : redis) :
  r !! job_key job_id = None →
  (fold_left (monitor_line job_id request) evs (logs, r)).2 = r.
Proof.
  intros Hjob. revert logs.
  induction evs as [|[now line] evs IH]; intros logs; [done|].
  simpl. destruct (decide (line = EmptyString)); [apply IH|].
  rewrite update_job_absent by done. apply IH.
Qed.

Lemma run_felafax_training_absent (job_id : string)
    (request : FineTuningRequest.t) (now0 : Z) (run : training_run) (now1 : Z)
    (r : redis) :
  r !! job_key job_id = None →
  run_felafax_training job_id request now0 run now1 r = r.
Proof.
  intros Hjob. unfold run_felafax_training, monitor_lines.
  rewrite (update_job_absent _ _ r) by done.
  destruct run as [e|stdout fin].
  - by apply update_job_absent.
  - rewrite monitor_fold_absent by done.
    destruct fin; by apply update_job_absent.
Qed.

Lemma run_felafax_training_other (job_id : string)
    (request : FineTuningRequest.t) (now0 : Z) (run : training_run) (now1 : Z)
    (r : redis) (key : string) :
  key ≠ job_key job_id →
  run_felafax_training job_id request now0 run now1 r !! key = r !! key.
Proof.
  intros Hkey. unfold run_felafax_training, monitor_lines.
  destruct run as [e|stdout fin].
  - by rewrite !update_job_lookup_ne.
  - destruct fin; rewrite update_job_lookup_ne by done;
      rewrite monitor_fold_other by done; by apply update_job_lookup_ne.
Qed.

(** The background task never creates a record and writes under the key of
    its own job only: when the job has no record the store is left exactly
    as it was, however the run goes; and a record under any other key is
    never changed. *)
Theorem run_felafax_training_frame (job_id : string)
    (request : FineTuningRequest.t) (now0 : Z) (run : training_run) (now1 : Z)
    (r : redis) :
  (r !! job_key job_id = None →
   run_felafax_training job_id request now0 run now1 r = r) ∧
  (∀ key, key ≠ job_key job_id →
     run_felafax_training job_id request now0 run now1 r !! key = r !! key).
Proof.
  split.
  - apply run_felafax_training_absent.
  - intros key. apply run_felafax_training_other.
Qed.

Lemma run_felafax_training_frame_witness :
  run_felafax_training "job_ffffffff" sample_request 20
    (Spawned [(21, line_500)] (Exited 0)) 30 sample_store
  = sample_store ∧
  run_felafax_training sample_job_id sample_request 20
    (Spawned [(21, line_500)] (Exited 0)) 30
    (<[job_key "job_ffffffff" := sample_job]> sample_store)
    !! job_key "job_ffffffff"
  = Some sample_job.
Proof.
  split.
  - apply (proj1 (run_felafax_training_frame "job_ffffffff" sample_request 20
                    (Spawned [(21, line_500)] (Exited 0)) 30 sample_store)).
    vm_compute. reflexivity.
  - rewrite (proj2 (run_felafax_training_frame sample_job_id sample_request 20
                      (Spawned [(21, line_500)] (Exited 0)) 30
                      (<[job_key "job_ffffffff" := sample_job]> sample_store))).
    + apply lookup_insert_eq.
    + discriminate.
Defined.

Lemma line_update_description (request : FineTuningRequest.t)
    (logs : list string) (now : Z) (line : string) (job j : TrainingJob.t) :
  same_description job j →
  same_description job (line_update request logs now line j).
Proof. unfold line_update. by destruct (parse_progress request line). Qed.

(** The description of a job (identifier, model, dataset, hardware,
    precision, creation time, configuration) and its metrics are the same
    after the background task as before, however the run goes; the task
    ends with the time stamp of its last write. *)
Theorem run_felafax_training_keeps_description (job_id : string)
    (request : FineTuningRequest.t) (now0 : Z) (run : training_run) (now1 : Z)
    (r : redis) (job : TrainingJob.t) :
  r !! job_key job_id = Some job →
  ∃ job',
    get_job_status job_id (run_felafax_training job_id request now0 run now1 r)
    = inr job' ∧
    same_description job job' ∧
    TrainingJob.updated_at job' = now1.
Proof.
  intros Hjob. unfold get_job_status, run_felafax_training.
  pose proof (update_job_lookup _ (mark_running now0) _ _ Hjob) as Hrun.
  assert (same_description job (mark_running now0 job)) as Hd0
    by by repeat split.
  destruct run as [e|stdout fin].
  - rewrite (update_job_lookup _ _ _ _ Hrun). eexists. split; [done|].
    by repeat split.
  - destruct (monitor_fold_invariant job_id request (same_description job)
                (fun logs now line j =>
                   line_update_description request logs now line job j)
                (until_sentinel stdout) []
                _ _ Hrun Hd0) as (job_mid & Hmid & Hd).
    unfold monitor_lines.
    destruct fin; rewrite (update_job_lookup _ _ _ _ Hmid);
      (eexists; split; [done|]); split; try done;
      destruct Hd as (? & ? & ? & ? & ? & ? & ? & ?); by repeat split.
Qed.

Lemma run_felafax_training_keeps_description_witness :
  ∃ job',
    get_job_status sample_job_id
      (run_felafax_training sample_job_id sample_request 20
         (Spawned [(21, line_500)] (Raised (OSError "read"))) 30 sample_store)
    = inr job' ∧
    same_description sample_job job' ∧
    TrainingJob.updated_at job' = 30.
Proof.
  apply (run_felafax_training_keeps_description sample_job_id sample_request
           20 (Spawned [(21, line_500)] (Raised (OSError "read"))) 30
           sample_store sample_job).
  vm_compute. reflexivity.
Defined.

(** ** Invariants of the store *)

Ltac solve_status :=
  unfold valid_status; simpl;
  repeat first [apply list_elem_of_here | apply list_elem_of_further].

Lemma line_update_ok (request : FineTuningRequest.t) (logs : list string)
    (now : Z) (line : string) (key : string) (job : TrainingJob.t) :
  record_ok key job → record_ok key (line_update request logs now line job).
Proof.
  intros (Hkey & Hst & Hl & Hm). unfold record_ok.
  rewrite line_update_logs.
  destruct (line_update_frame request logs now line job) as (-> & -> & _).
  assert (TrainingJob.job_id (line_update request logs now line job)
          = TrainingJob.job_id job) as ->.
  { unfold line_update. by destruct (parse_progress request line). }
  repeat split; try done.
  apply py_last_n_length.
Qed.

Lemma mark_running_ok (now : Z) (key : string) (job : TrainingJob.t) :
  record_ok key job → record_ok key (mark_running now job).
Proof. intros (? & ? & ? & ?). repeat split; try done. solve_status. Qed.

Lemma mark_failed_ok (now : Z) (key : string) (job : TrainingJob.t) :
  record_ok key job → record_ok key (mark_failed now job).
Proof. intros (? & ? & ? & ?). repeat split; try done. solve_status. Qed.

Lemma mark_finished_ok (return_code now : Z) (key : string)
    (job : TrainingJob.t) :
  record_ok key job → record_ok key (mark_finished return_code now job).
Proof.
  intros (? & ? & ? & ?). repeat split; try done.
  unfold valid_status. simpl. case_decide; solve_status.
Qed.

(** A write of the monitor keeps [record_ok] of every record when the
    function it applies does. *)
Lemma update_job_ok (key : string) (f : TrainingJob.t → TrainingJob.t)
    (r : redis) :
  (∀ job, record_ok key job → record_ok key (f job)) →
  (∀ k job, r !! k = Some job → record_ok k job) →
  ∀ k job, update_job key f r !! k = Some job → record_ok k job.
Proof.
  intros Hf Hr k job. destruct (decide (k = key)) as [->|Hk].
  - destruct (r !! key) as [job0|] eqn:Hjob0.
    + rewrite (update_job_lookup _ _ _ _ Hjob0). intros [= <-].
      by apply Hf, Hr.
    + rewrite update_job_absent by done. apply Hr.
  - rewrite update_job_lookup_ne by done. apply Hr.
Qed.

Lemma monitor_fold_ok (job_id : string) (request : FineTuningRequest.t)
    (evs : list (Z * string)) :
  ∀ (logs : list string) (r : redis),
    (∀ k job, r !! k = Some job → record_ok k job) →
    ∀ k job,
      (fold_left (monitor_line job_id request) evs (logs, r)).2 !! k = Some job →
      record_ok k job.
Proof.
  induction evs as [|[now line] evs IH]; intros logs r Hr; [done|].
  simpl. destruct (decide (line = EmptyString)); [by apply IH|].
  apply IH. apply update_job_ok; [|done].
  intros job. apply line_update_ok.
Qed.

(** Each operation keeps [record_ok] of every record. *)
Lemma run_felafax_training_ok (job_id : string)
    (request : FineTuningRequest.t) (now0 : Z) (run : training_run) (now1 : Z)
    (r : redis) :
  (∀ key job, r !! key = Some job → record_ok key job) →
  ∀ key job,
    run_felafax_training job_id request now0 run now1 r !! key = Some job →
    record_ok key job.
Proof.
  intros Hr. unfold run_felafax_training, monitor_lines.
  pose proof (update_job_ok (job_key job_id) _ r
                (mark_running_ok now0 (job_key job_id)) Hr) as Hrun.
  destruct run as [e|stdout fin].
  - apply update_job_ok; [apply mark_failed_ok|done].
  - pose proof (monitor_fold_ok job_id request (until_sentinel stdout) [] _ Hrun)
      as Hmid.
    destruct fin; apply update_job_ok; try done.
    + apply mark_finished_ok.
    + apply mark_failed_ok.
Qed.

Lemma reachable_record_ok (r : redis) :
  reachable r → ∀ key job, r !! key = Some job → record_ok key job.
Proof.
  induction 1 as [|hex8 now1 now2 request r _ IH|job_id now r _ IH
                  |job_id request now0 run now1 r _ IH
                  |job_id now r _ IH|job_id request logs now line r _ IH
                  |job_id return_code now r _ IH|job_id now r _ IH].
  - intros key job. by rewrite lookup_empty.
  - intros key job. unfold start_fine_tuning. simpl.
    destruct (decide (key = job_key ("job_" ++ hex8))) as [->|Hkey].
    + rewrite lookup_insert_eq. intros [= <-]. repeat split; try done.
      * solve_status.
      * simpl. lia.
    + rewrite lookup_insert_ne by done. apply IH.
  - intros key job. unfold cancel_job.
    destruct (r !! job_key job_id) as [job0|] eqn:Hjob0; [|apply IH]. simpl.
    destruct (decide (key = job_key job_id)) as [->|Hkey].
    + rewrite lookup_insert_eq. intros [= <-].
      destruct (IH _ _ Hjob0) as (? & ? & ? & ?). repeat split; try done.
      solve_status.
    + rewrite lookup_insert_ne by done. apply IH.
  - by apply run_felafax_training_ok.
  - apply update_job_ok; [apply mark_running_ok|done].
  - unfold monitor_line. destruct (decide (line = EmptyString)); [done|].
    apply update_job_ok; [|done]. intros job. apply line_update_ok.
  - apply update_job_ok; [apply mark_finished_ok|done].
  - apply update_job_ok; [apply mark_failed_ok|done].
Qed.

Lemma sample_store_reachable : reachable sample_store.
Proof. apply reachable_start, reachable_empty. Qed.

Lemma finished_store_reachable : reachable finished_store.
Proof. apply reachable_run, sample_store_reachable. Qed.

(** In every store that submissions, cancellations and runs of the
    background task can bring about, every record is stored under the key
    of its own [job_id] and has one of the five states, at most 100 log
    lines and an empty [metrics] map. *)
Theorem reachable_store_invariants (r : redis) (key : string)
    (job : TrainingJob.t) :
  reachable r →
  r !! key = Some job →
  key = job_key (TrainingJob.job_id job) ∧
  valid_status (TrainingJob.status job) ∧
  (length (TrainingJob.logs job) ≤ 100)%nat ∧
  TrainingJob.metrics job = ∅.
Proof.
  intros Hr Hjob. exact (reachable_record_ok r Hr key job Hjob).
Qed.

Lemma reachable_store_invariants_witness :
  ∃ job,
    finished_store !! job_key sample_job_id = Some job ∧
    job_key sample_job_id = job_key (TrainingJob.job_id job) ∧
    valid_status (TrainingJob.status job) ∧
    (length (TrainingJob.logs job) ≤ 100)%nat ∧
    TrainingJob.metrics job = ∅.
Proof.
  destruct (finished_store !! job_key sample_job_id) as [job|] eqn:Hjob.
  - exists job. split; [reflexivity|].
    apply (reachable_store_invariants finished_store (job_key sample_job_id)
             job finished_store_reachable Hjob).
  - vm_compute in Hjob. discriminate.
Defined.

(** Listing and reading agree: in every such store, a job that [list_jobs]
    returns, for whatever keys Redis enumerates, filter and limit, is found
    by [get_job_status] under its own [job_id], and what is found is that
    very record. *)
Theorem listed_job_is_found (r : redis) (job_keys : list string)
    (user_id : option string) (limit : Z) (job : TrainingJob.t) :
  reachable r →
  job ∈ list_jobs_of job_keys user_id limit r →
  get_job_status (TrainingJob.job_id job) r = inr job.
Proof.
  intros Hr Hin. unfold list_jobs_of in Hin.
  apply list_elem_of_filter in Hin as [_ Hin].
  apply list_elem_of_omap in Hin as (key & _ & Hkey).
  destruct (reachable_record_ok r Hr key job Hkey) as (-> & _).
  unfold get_job_status. by rewrite Hkey.
Qed.

Lemma listed_job_is_found_witness :
  get_job_status (TrainingJob.job_id sample_job) sample_store = inr sample_job.
Proof.
  apply (listed_job_is_found sample_store (redis_keys sample_store) None 50
           sample_job sample_store_reachable).
  vm_compute. apply list_elem_of_here.
Defined.

(** ** The range of the progress *)









(** ** The log tail after a run *)

(** When the process was spawned, the log tail that the task leaves is the
    last 100 of the lines read up to the end of the stream (the first empty
    read), stripped and in the order they were emitted, whether the run
    ends with an exit code or with an exception; reads after the end of the
    stream are not recorded, and with no line at all the stored logs are
    those from before. *)
Theorem run_felafax_training_log_tail (job_id : string)
    (request : FineTuningRequest.t) (now0 : Z) (stdout : list (Z * string))
    (fin : ending) (now1 : Z) (r : redis) (job : TrainingJob.t) :
  r !! job_key job_id = Some job →
  ∃ job',
    run_felafax_training job_id request now0 (Spawned stdout fin) now1 r
      !! job_key job_id = Some job' ∧
    TrainingJob.logs job'
    = match until_sentinel stdout with
      | [] => TrainingJob.logs job
      | lines => py_last_n 100 (map (fun ev => strip ev.2) lines)
      end.
Proof.
  intros Hjob. unfold run_felafax_training.
  pose proof (update_job_lookup _ (mark_running now0) _ _ Hjob) as Hrun.
  destruct (until_sentinel stdout) as [|ev evs] eqn:Hlines.
  - unfold monitor_lines. rewrite Hlines. simpl.
    destruct fin; rewrite (update_job_lookup _ _ _ _ Hrun); by eexists.
  - destruct (monitor_lines_log_tail job_id request stdout _ _ Hrun)
      as (job_mid & Hmid & Hlogs); [by rewrite Hlines|].
    rewrite Hlines in Hlogs.
    destruct fin; rewrite (update_job_lookup _ _ _ _ Hmid);
      eexists; (split; [done|]); by rewrite <- Hlogs.
Qed.

Lemma run_felafax_training_log_tail_witness :
  ∃ job',
    run_felafax_training sample_job_id sample_request 20
      (Spawned [(21, line_500); (22, EmptyString); (23, line_200)] (Exited 0))
      30 sample_store !! job_key sample_job_id = Some job' ∧
    TrainingJob.logs job' = ["step 500 loss 0.31"].
Proof.
  destruct (run_felafax_training_log_tail sample_job_id sample_request 20
              [(21, line_500); (22, EmptyString); (23, line_200)] (Exited 0)
              30 sample_store sample_job) as (job' & Hjob' & Hlogs).
  - vm_compute. reflexivity.
  - exists job'. split; [exact Hjob'|]. rewrite Hlogs. vm_compute. reflexivity.
Defined.

(** Every line that the loop of the monitor stores is trimmed: it neither
    begins nor ends with white space (so the line terminator is gone). *)
Theorem stored_log_lines_trimmed (job_id : string)
    (request : FineTuningRequest.t) (reads : list (Z * string)) (r : redis)
    (job job' : TrainingJob.t) (line : string) :
  r !! job_key job_id = Some job →
  until_sentinel reads ≠ [] →
  (monitor_lines job_id request reads r).2 !! job_key job_id = Some job' →
  line ∈ TrainingJob.logs job' →
  starts_with is_space line = false ∧ ends_with is_space line = false.
Proof.
  intros Hjob Hne Hjob' Hin.
  destruct (monitor_lines_log_tail job_id request reads r job Hjob Hne)
    as (job'' & Hjob'' & Hlogs).
  rewrite Hjob' in Hjob''. injection Hjob'' as <-.
  rewrite Hlogs in Hin. unfold py_last_n in Hin.
  apply list_elem_of_lookup in Hin as (i & Hi).
  rewrite lookup_drop, list_lookup_fmap in Hi.
  destruct (until_sentinel reads !! _) as [ev|]; [|done].
  injection Hi as <-. apply strip_trimmed.
Qed.

Lemma stored_log_lines_trimmed_witness :
  starts_with is_space "step 500 loss 0.31" = false ∧
  ends_with is_space "step 500 loss 0.31" = false.
Proof.
  destruct ((monitor_lines sample_job_id sample_request
               [(21, "  " ++ line_500)] sample_store).2
              !! job_key sample_job_id) as [job'|] eqn:Hjob'.
  - apply (stored_log_lines_trimmed sample_job_id sample_request
             [(21, "  " ++ line_500)] sample_store sample_job job').
    + vm_compute. reflexivity.
    + discriminate.
    + exact Hjob'.
    + vm_compute in Hjob'. injection Hjob' as <-. apply list_elem_of_here.
  - vm_compute in Hjob'. discriminate.
Defined.

(** ** More on the cost estimate *)

Lemma cents_pos (n : Z) : 0 < n → (Q2Qc 0 < cents n)%Qc.
Proof.
  intros Hn. unfold cents, Qcdiv.
  apply Qcmult_pos_pos; [by apply Qc_of_Z_pos|].
  apply Qcinv_pos. by apply Qc_of_Z_pos.
Qed.

Lemma base_hours_pos (model : string) :
  (Q2Qc 0 < default (Qc_of_Z 1) (model_size_factor model))%Qc.
Proof.
  unfold model_size_factor.
  repeat case_decide; simpl; (by apply Qc_of_Z_pos) || (by apply cents_pos).
Qed.

Lemma HARDWARE_COSTS_pos (h : HardwareType) : (Q2Qc 0 < HARDWARE_COSTS h)%Qc.
Proof. destruct h; by apply cents_pos. Qed.

(** A batch size that is not a number (a string, [None], a list) makes the
    estimate fail with status 500 carrying the [TypeError]. *)
Theorem estimate_cost_batch_size_not_a_number (request : FineTuningRequest.t) :
  pynum (batch_size_of request) = None →
  estimate_cost request
  = inl {| status_code := 500; http_detail := StrOf TypeError |}.
Proof.
  intros Hb. unfold estimate_cost. fold (batch_size_of request).
  by destruct (batch_size_of request).
Qed.

Lemma estimate_cost_batch_size_not_a_number_witness :
  estimate_cost (request_with_batch (PStr "8"))
  = inl {| status_code := 500; http_detail := StrOf TypeError |}.
Proof.
  apply (estimate_cost_batch_size_not_a_number (request_with_batch (PStr "8"))).
  reflexivity.
Defined.

(** With a positive batch size, and so with none given (the default is 8),
    the estimate succeeds, and the estimated hours and the estimated cost
    are not negative, whatever the model name and the hardware. *)
Theorem estimate_cost_nonnegative (request : FineTuningRequest.t) (b : Qc) :
  pynum (batch_size_of request) = Some b →
  (Q2Qc 0 < b)%Qc →
  ∃ estimate,
    estimate_cost request = inr estimate ∧
    (Q2Qc 0 ≤ CostEstimate.duration_hours estimate)%Qc ∧
    (Q2Qc 0 ≤ CostEstimate.estimated_cost estimate)%Qc.
Proof.
  intros Hb Hpos.
  assert (b ≠ Q2Qc 0) as Hb0 by (intros ->; by apply Qclt_not_eq in Hpos).
  unfold estimate_cost. fold (batch_size_of request).
  rewrite (py_truediv_8 _ b) by done.
  eexists. split; [done|]. simpl.
  assert (Q2Qc 0 ≤ default (Qc_of_Z 1)
                     (model_size_factor (FineTuningRequest.model request))
                   * (Qc_of_Z 8 / b))%Qc as Hh.
  { apply Qcmult_nonneg_nonneg; [apply Qclt_le_weak, base_hours_pos|].
    unfold Qcdiv. apply Qcmult_nonneg_nonneg; [by apply Qc_of_Z_nonneg|].
    apply Qclt_le_weak. by apply Qcinv_pos. }
  split; [done|].
  apply Qcmult_nonneg_nonneg; [done|apply Qclt_le_weak, HARDWARE_COSTS_pos].
Qed.

Lemma estimate_cost_nonnegative_witness :
  ∃ estimate,
    estimate_cost (request_with_steps (PInt 1000)) = inr estimate ∧
    (Q2Qc 0 ≤ CostEstimate.duration_hours estimate)%Qc ∧
    (Q2Qc 0 ≤ CostEstimate.estimated_cost estimate)%Qc.
Proof.
  apply (estimate_cost_nonnegative (request_with_steps (PInt 1000))
           (Qc_of_Z 8)).
  - reflexivity.
  - by apply Qc_of_Z_pos.
Defined.

(** ** The limit of a list *)

Lemma length_omap_le {A B} (f : A → option B) (l : list A) :
  (length (omap f l) ≤ length l)%nat.
Proof.
  induction l as [|x l IH]; csimpl; [done|]. destruct (f x); csimpl; lia.
Qed.

Lemma py_slice_to_elem {A} (limit : Z) (l : list A) (x : A) :
  x ∈ py_slice_to limit l ↔
  ∃ i : nat,
    l !! i = Some x ∧
    (0 ≤ limit → Z.of_nat i < limit) ∧
    (limit < 0 → Z.of_nat i < Z.of_nat (length l) + limit).
Proof.
  unfold py_slice_to. case_decide as Hlimit; rewrite elem_of_take; split.
  - intros (i & Hi & Hlt). exists i. repeat split; [done|lia|lia].
  - intros (i & Hi & Hpos & _). exists i. split; [done|]. specialize (Hpos Hlimit). lia.
  - intros (i & Hi & Hlt). exists i. repeat split; [done|lia|lia].
  - intros (i & Hi & _ & Hneg). exists i. split; [done|]. lia.
Qed.

(** The limit of [list_jobs] cuts the keys, before the owner filter is
    applied.  With a limit that is not negative at most that many jobs are
    returned.  The jobs returned are exactly those that pass the owner
    filter and are stored under one of the first [limit] keys, or, for a
    negative limit, which raises no error, under one of the keys other than
    the last [-limit] of the enumeration.  So a job of the user under a
    later key is not returned, however few jobs are. *)
Theorem list_jobs_limit (job_keys : list string) (user_id : option string)
    (limit : Z) (r : redis) :
  (0 ≤ limit →
   (length (list_jobs_of job_keys user_id limit r) ≤ Z.to_nat limit)%nat) ∧
  (∀ job, job ∈ list_jobs_of job_keys user_id limit r ↔
     user_matches user_id job = true ∧
     ∃ (i : nat) (key : string),
       job_keys !! i = Some key ∧ r !! key = Some job ∧
       (0 ≤ limit → Z.of_nat i < limit) ∧
       (limit < 0 → Z.of_nat i < Z.of_nat (length job_keys) + limit)).
Proof.
  unfold list_jobs_of. split.
  - intros Hlimit.
    etrans; [apply length_filter|]. etrans; [apply length_omap_le|].
    unfold py_slice_to. rewrite decide_True by done.
    rewrite length_take. lia.
  - intros job. rewrite list_elem_of_filter, list_elem_of_omap.
    apply and_iff_compat_l. split.
    + intros (key & Hkey & Hjob).
      apply py_slice_to_elem in Hkey as (i & Hi & Hpos & Hneg).
      by exists i, key.
    + intros (i & key & Hi & Hjob & Hpos & Hneg). exists key.
      split; [|done]. apply py_slice_to_elem. by exists i.
Qed.

(** Two jobs, the second one of the user "bob".  With limit 2 the list for
    "bob" has that job; with limit 1, and with limit -1, it has not; and
    the list for everyone with limit -1 has the first job. *)
Lemma list_jobs_limit_witness :
  (length (list_jobs_of two_job_keys None 1 two_job_store) ≤ 1)%nat ∧
  bob_job ∈ list_jobs_of two_job_keys (Some "bob") 2 two_job_store ∧
  ¬ (bob_job ∈ list_jobs_of two_job_keys (Some "bob") 1 two_job_store) ∧
  ¬ (bob_job ∈ list_jobs_of two_job_keys (Some "bob") (-1) two_job_store) ∧
  sample_job ∈ list_jobs_of two_job_keys None (-1) two_job_store.
Proof.
  split; [|split; [|split; [|split]]].
  - apply (proj1 (list_jobs_limit two_job_keys None 1 two_job_store)). lia.
  - apply (proj2 (list_jobs_limit two_job_keys (Some "bob") 2 two_job_store)).
    split; [reflexivity|]. exists 1%nat, (job_key "job_ffffffff").
    split; [reflexivity|]. split; [vm_compute; reflexivity|]. simpl. lia.
  - intros Hin.
    apply (proj2 (list_jobs_limit two_job_keys (Some "bob") 1 two_job_store))
      in Hin as (_ & i & key & Hi & Hjob & Hpos & _).
    assert (i = 0%nat) as -> by lia. injection Hi as <-.
    vm_compute in Hjob. discriminate.
  - intros Hin.
    apply (proj2 (list_jobs_limit two_job_keys (Some "bob") (-1)
                    two_job_store))
      in Hin as (_ & i & key & Hi & Hjob & _ & Hneg).
    assert (i = 0%nat) as -> by (simpl in Hneg; lia). injection Hi as <-.
    vm_compute in Hjob. discriminate.
  - apply (proj2 (list_jobs_limit two_job_keys None (-1) two_job_store)).
    split; [reflexivity|]. exists 0%nat, (job_key sample_job_id).
    split; [reflexivity|]. split; [vm_compute; reflexivity|]. simpl. lia.
Defined.

Lemma omap_lookup_map_to_list (r : redis) (l : list (string * TrainingJob.t)) :
  Forall (fun kv => r !! kv.1 = Some kv.2) l →
  omap (fun key => r !! key) (l.*1) = l.*2.
Proof.
  induction 1 as [|[key job] l Hkv _ IH]; [done|].
  simpl in *. rewrite Hkv. simpl. by f_equal.
Qed.

Lemma filter_all {A} (P : A → Prop) `{!∀ x, Decision (P x)} (l : list A) :
  Forall P l → filter P l = l.
Proof.
  induction 1 as [|x l Hx _ IH]; [done|].
  rewrite filter_cons, decide_True by done. by f_equal.
Qed.

Lemma startswith_job_key (job_id : string) :
  startswith "job:" (job_key job_id) = true.
Proof. apply startswith_app. Qed.

(** In a store that the service brought about, a [list_jobs] whose limit
    is at least the number of stored jobs returns exactly the stored jobs
    that pass the owner filter, each once: all of them when no user is
    given. *)
Theorem list_jobs_complete (r : redis) (user_id : option string) (limit : Z) :
  reachable r →
  Z.of_nat (size r) ≤ limit →
  list_jobs user_id limit r
  = filter (fun job => user_matches user_id job = true) (map_to_list r).*2 ∧
  list_jobs None limit r = (map_to_list r).*2.
Proof.
  intros Hr Hlimit. unfold list_jobs, list_jobs_of, redis_keys.
  assert (filter (fun key => startswith "job:" key = true)
            (map fst (map_to_list r)) = (map_to_list r).*1) as ->.
  { apply filter_all. apply Forall_forall. intros key Hkey.
    apply list_elem_of_fmap in Hkey as ([key' job] & -> & Hkv).
    apply elem_of_map_to_list in Hkv.
    destruct (reachable_record_ok r Hr key' job Hkv) as (-> & _).
    apply startswith_job_key. }
  unfold py_slice_to. rewrite decide_True by lia.
  rewrite take_ge
    by (rewrite length_fmap, length_map_to_list; lia).
  rewrite omap_lookup_map_to_list.
  - split; [done|]. by apply filter_all, Forall_forall.
  - apply Forall_forall. intros [key job] Hkv. by apply elem_of_map_to_list.
Qed.

Lemma list_jobs_complete_witness :
  list_jobs (Some "alice") 50 sample_store
  = filter (fun job => user_matches (Some "alice") job = true)
      (map_to_list sample_store).*2 ∧
  list_jobs None 50 sample_store = (map_to_list sample_store).*2.
Proof.
  apply (list_jobs_complete sample_store (Some "alice") 50
           sample_store_reachable).
  vm_compute. discriminate.
Defined.

(** ** More on the connection manager *)

Lemma py_remove_filter (send_ok : nat → bool) (c : nat) (l : list nat) :
  send_ok c = false →
  filter (fun x => send_ok x = true) (py_remove c l)
  = filter (fun x => send_ok x = true) l.
Proof.
  intros Hc. induction l as [|y l IH]; [done|]. simpl.
  destruct (decide (y = c)) as [->|Hy].
  - rewrite filter_cons, decide_False; [done|]. by rewrite Hc.
  - by rewrite !filter_cons, IH.
Qed.

Lemma py_remove_elem (c x : nat) (l : list nat) : x ∈ py_remove c l → x ∈ l.
Proof.
  induction l as [|y l IH]; [done|]. simpl.
  destruct (decide (y = c)) as [->|Hy].
  - apply list_elem_of_further.
  - rewrite !elem_of_cons. intros [->|Hx]; [by left|right; by apply IH].
Qed.

Lemma py_remove_snoc (c : nat) (l : list nat) :
  c ∉ l → py_remove c (l ++ [c]) = l.
Proof.
  induction l as [|y l IH]; simpl.
  - intros _. by rewrite decide_True.
  - rewrite not_elem_of_cons. intros [Hy Hl].
    rewrite decide_False by done. by rewrite IH.
Qed.

(** The list that the loop leaves: delivery to its sockets that succeed is
    as before, and nothing is in it that was not there. *)
Lemma send_loop_conns (send_ok : nat → bool) (fuel : nat) :
  ∀ (i : nat) (conns sent : list nat),
    filter (fun x => send_ok x = true)
      (ConnectionManager.send_loop fuel send_ok i conns sent).1
    = filter (fun x => send_ok x = true) conns ∧
    ∀ x, x ∈ (ConnectionManager.send_loop fuel send_ok i conns sent).1 →
         x ∈ conns.
Proof.
  induction fuel as [|fuel IH]; intros i conns sent; simpl; [done|].
  destruct (conns !! i) as [c|]; [|done].
  destruct (send_ok c) eqn:Hc; [apply IH|].
  destruct (IH (S i) (py_remove c conns) sent) as [Hfilter Hsub]. split.
  - by rewrite Hfilter, py_remove_filter.
  - intros x Hx. by eapply py_remove_elem, Hsub.
Qed.

(** [send_message] never drops a subscriber to whom delivery succeeds: the
    sockets of the job on which [send_text] returns are the same after the
    call as before, in the same order, and no socket is added.  Whoever is
    sent something is sent this message, was subscribed to this job, and
    delivery to it succeeded. *)
Theorem send_message_keeps_healthy (send_ok : nat → bool)
    (message job_id : string) (m : ConnectionManager.t) (conns : list nat) :
  m !! job_id = Some conns →
  ∃ conns',
    (ConnectionManager.send_message send_ok message job_id m).1
    = <[job_id := conns']> m ∧
    filter (fun x => send_ok x = true) conns'
    = filter (fun x => send_ok x = true) conns ∧
    (∀ x, x ∈ conns' → x ∈ conns) ∧
    (∀ c message',
       (c, message')
         ∈ (ConnectionManager.send_message send_ok message job_id m).2 →
       message' = message ∧ c ∈ conns ∧ send_ok c = true).
Proof.
  intros Hm. unfold ConnectionManager.send_message. rewrite Hm.
  pose proof (send_loop_conns send_ok (length conns) 0 conns []) as [Hf Hsub].
  pose proof (send_loop_sent send_ok (length conns) 0 conns []) as Hsent.
  destruct (ConnectionManager.send_loop (length conns) send_ok 0 conns [])
    as [conns' sent].
  simpl in *. exists conns'. split; [done|]. split; [done|]. split; [done|].
  intros c message' Hin.
  apply list_elem_of_fmap in Hin as (x & [= -> ->] & Hx).
  destruct (Hsent _ Hx) as [Hnil|[Hin Hok]]; [by apply elem_of_nil in Hnil|done].
Qed.

Lemma send_message_keeps_healthy_witness :
  ∃ conns',
    (ConnectionManager.send_message socket_1_closed "snapshot" sample_job_id
       sample_connections).1
    = <[sample_job_id := conns']> sample_connections ∧
    filter (fun x => socket_1_closed x = true) conns'
    = filter (fun x => socket_1_closed x = true) [1; 2]%nat ∧
    (∀ x, x ∈ conns' → x ∈ [1; 2]%nat) ∧
    (∀ c message',
       (c, message')
         ∈ (ConnectionManager.send_message socket_1_closed "snapshot"
              sample_job_id sample_connections).2 →
       message' = "snapshot" ∧ c ∈ [1; 2]%nat ∧ socket_1_closed c = true).
Proof.
  apply (send_message_keeps_healthy socket_1_closed "snapshot" sample_job_id
           sample_connections [1; 2]%nat).
  vm_compute. reflexivity.
Defined.

Lemma send_message_all_ok_witness :
  ConnectionManager.send_message (fun _ => true) "snapshot" sample_job_id
    sample_connections
  = (<[sample_job_id := [1; 2]%nat]> sample_connections,
     [(1%nat, "snapshot"); (2%nat, "snapshot")]).
Proof.
  apply (send_message_all_ok (fun _ => true) "snapshot" sample_job_id
           sample_connections [1; 2]%nat).
  - vm_compute. reflexivity.
  - by repeat constructor.
Defined.

Lemma send_loop_fuel_witness :
  ConnectionManager.send_loop 2 socket_1_closed 0 [1; 2]%nat []
  = ConnectionManager.send_loop 7 socket_1_closed 0 [1; 2]%nat [].
Proof.
  apply (send_loop_fuel socket_1_closed 2 7 0 [1; 2]%nat []); simpl; lia.
Defined.

(** Round trip of a subscription.  For a socket that is not yet subscribed
    to the job, [connect] followed by [disconnect] gives the registry back
    as it was, the key of a job without other subscribers being deleted
    again; save when the job was registered with an empty list, as
    [send_message] leaves it after it dropped the last subscriber: then the
    key is deleted, not restored. *)
Theorem connect_then_disconnect (websocket : nat) (job_id : string)
    (m : ConnectionManager.t) :
  websocket ∉ default [] (m !! job_id) →
  (m !! job_id ≠ Some [] →
   ConnectionManager.disconnect websocket job_id
     (ConnectionManager.connect websocket job_id m)
   = ConnectionManager.Disconnected m) ∧
  (m !! job_id = Some [] →
   ConnectionManager.disconnect websocket job_id
     (ConnectionManager.connect websocket job_id m)
   = ConnectionManager.Disconnected (delete job_id m)).
Proof.
  intros Hnew.
  unfold ConnectionManager.disconnect, ConnectionManager.connect.
  rewrite lookup_insert_eq.
  rewrite decide_True by (apply elem_of_app; right; apply list_elem_of_here).
  cbv zeta. rewrite py_remove_snoc by done. split.
  - intros Hne. destruct (m !! job_id) as [conns|] eqn:Hm; simpl.
    + destruct (decide (conns = [])) as [->|_]; [done|].
      by rewrite insert_insert_eq, insert_id.
    + by rewrite delete_insert_id.
  - intros ->. simpl. by rewrite delete_insert_eq.
Qed.

Lemma connect_then_disconnect_witness :
  ConnectionManager.disconnect 3 sample_job_id
    (ConnectionManager.connect 3 sample_job_id sample_connections)
  = ConnectionManager.Disconnected sample_connections.
Proof.
  destruct (connect_then_disconnect 3 sample_job_id sample_connections)
    as [Hround _].
  - replace (default [] (sample_connections !! sample_job_id))
      with [1; 2]%nat by (vm_compute; reflexivity).
    rewrite !not_elem_of_cons. repeat split; (discriminate || apply not_elem_of_nil).
  - apply Hround. vm_compute. discriminate.
Defined.

(** [disconnect] after a failed delivery.  When [send_message] has dropped
    the socket at the head of the list because delivery to it failed, a
    later [disconnect] of that socket raises [ValueError]: it is no longer
    in the list. *)
Theorem disconnect_after_failed_send (send_ok : nat → bool)
    (message job_id : string) (m : ConnectionManager.t)
    (c : nat) (rest : list nat) :
  m !! job_id = Some (c :: rest) →
  send_ok c = false →
  c ∉ rest →
  ConnectionManager.disconnect c job_id
    (ConnectionManager.send_message send_ok message job_id m).1
  = ConnectionManager.RaisesValueError.
Proof.
  intros Hm Hc Hrest. unfold ConnectionManager.send_message. rewrite Hm.
  change (length (c :: rest)) with (S (length rest)).
  rewrite (send_loop_step send_ok _ 0 _ _ c) by done. rewrite Hc.
  replace (py_remove c (c :: rest)) with rest
    by (simpl; by rewrite decide_True).
  pose proof (send_loop_conns send_ok (length rest) 1 rest []) as [_ Hsub].
  destruct (ConnectionManager.send_loop (length rest) send_ok 1 rest [])
    as [conns' sent].
  simpl in *. unfold ConnectionManager.disconnect. rewrite lookup_insert_eq.
  rewrite decide_False; [done|]. intros Hin. by apply Hrest, Hsub.
Qed.

Lemma disconnect_after_failed_send_witness :
  ConnectionManager.disconnect 1 sample_job_id
    (ConnectionManager.send_message socket_1_closed "snapshot" sample_job_id
       sample_connections).1
  = ConnectionManager.RaisesValueError.
Proof.
  apply (disconnect_after_failed_send socket_1_closed "snapshot" sample_job_id
           sample_connections 1 [2]%nat).
  - vm_compute. reflexivity.
  - reflexivity.
  - intros H. apply list_elem_of_singleton in H. discriminate.
Defined.

(** ** The catalogue of models *)

(** The catalogue and the estimator agree on the models: a model name is
    offered by [list_available_models] exactly when the table of
    [estimate_cost] has a size factor for it, so that the default factor is
    never used for an offered model; and every hardware and precision that
    the catalogue names is a value of the corresponding enumeration. *)
Theorem catalogue_agrees_with_estimator :
  (∀ name,
     name ∈ ModelInfo.name <$> list_available_models ↔
     is_Some (model_size_factor name)) ∧
  (∀ info, info ∈ list_available_models →
     (∀ h, h ∈ ModelInfo.hardware info → ∃ hw, HardwareType_value hw = h) ∧
     (∀ p, p ∈ ModelInfo.precision info → ∃ pr, ModelPrecision_value pr = p)).
Proof.
  split.
  - intros name. split.
    + simpl. rewrite !elem_of_cons, elem_of_nil.
      intros [->|[->|[->|[->|[->|[]]]]]]; by eexists.
    + unfold model_size_factor.
      repeat case_decide; subst; intros [x Hx]; try done; simpl;
        rewrite !elem_of_cons; tauto.
  - intros info. unfold list_available_models.
    rewrite !elem_of_cons, elem_of_nil.
    intros [->|[->|[->|[->|[->|[]]]]]]; simpl; split; intros x;
      rewrite !elem_of_cons, elem_of_nil; intros Hx;
      repeat (destruct Hx as [->|Hx]); try done;
      first [by exists TPU | by exists TRAINIUM | by exists GPU
            | by exists AMD | by exists BFLOAT16 | by exists FLOAT32].
Qed.

Lemma catalogue_agrees_with_estimator_witness :
  is_Some (model_size_factor "llama3-1-405b") ∧
  ∃ hw, HardwareType_value hw = "amd".
Proof.
  destruct catalogue_agrees_with_estimator as [Hnames Hvalues]. split.
  - apply Hnames. vm_compute. by repeat constructor.
  - apply (proj1 (Hvalues (ModelInfo.mk "llama3-1-405b"
                             "LLaMA 3.1 405B parameters" ["tpu"; "amd"]
                             ["bfloat16"])
                    ltac:(by repeat constructor))).
    by repeat constructor.
Defined.

(** ** The command of the training process *)

Lemma string_length_app (a t : string) :
  String.length (a ++ t) = (String.length a + String.length t)%nat.
Proof.
  induction a as [|c a IH]; [done|]. rewrite append_cons. simpl. by rewrite IH.
Qed.

Lemma string_app_inj_l (a b t : string) : a ++ t = b ++ t → a = b.
Proof.
  intros H.
  assert (String.length a = String.length b) as Hlen.
  { apply (f_equal String.length) in H. rewrite !string_length_app in H. lia. }
  revert b H Hlen. induction a as [|c a IH]; intros [|d b] H Hlen;
    try done.
  rewrite !append_cons in H. injection H as -> H. f_equal.
  apply IH; [done|]. simpl in Hlen. lia.
Qed.

Lemma config_path_inj (job_id1 job_id2 : string) :
  config_path job_id1 = config_path job_id2 → job_id1 = job_id2.
Proof.
  unfold config_path. intros H.
  assert (job_id1 ++ "_config.yml" = job_id2 ++ "_config.yml") as H'
    by by simplify_eq/=.
  by apply string_app_inj_l in H'.
Qed.

(** Two jobs never share a configuration file, and the command line of the
    training process determines the job and what was requested: equal
    argument vectors come from the same job identifier, model, dataset,
    precision and hardware. *)
Theorem felafax_cmd_inj (job_id1 job_id2 : string)
    (request1 request2 : FineTuningRequest.t) :
  (config_path job_id1 = config_path job_id2 → job_id1 = job_id2) ∧
  (felafax_cmd job_id1 request1 = felafax_cmd job_id2 request2 →
   job_id1 = job_id2 ∧
   FineTuningRequest.model request1 = FineTuningRequest.model request2 ∧
   FineTuningRequest.dataset request1 = FineTuningRequest.dataset request2 ∧
   FineTuningRequest.precision request1 = FineTuningRequest.precision request2 ∧
   FineTuningRequest.hardware request1 = FineTuningRequest.hardware request2).
Proof.
  split; [apply config_path_inj|].
  unfold felafax_cmd. intros [= Hmodel Hdataset Hpath Hprecision Hhardware].
  change (job_id1 ++ "_config.yml" = job_id2 ++ "_config.yml") in Hpath.
  apply string_app_inj_l in Hpath.
  repeat split; try done.
  - by destruct (FineTuningRequest.precision request1),
      (FineTuningRequest.precision request2).
  - by destruct (FineTuningRequest.hardware request1),
      (FineTuningRequest.hardware request2).
Qed.

Lemma felafax_cmd_inj_witness :
  sample_job_id = sample_job_id ∧
  FineTuningRequest.model sample_request
  = FineTuningRequest.model (with_user_id None sample_request) ∧
  FineTuningRequest.dataset sample_request
  = FineTuningRequest.dataset (with_user_id None sample_request) ∧
  FineTuningRequest.precision sample_request
  = FineTuningRequest.precision (with_user_id None sample_request) ∧
  FineTuningRequest.hardware sample_request
  = FineTuningRequest.hardware (with_user_id None sample_request).
Proof.
  apply (proj2 (felafax_cmd_inj sample_job_id sample_job_id sample_request
                  (with_user_id None sample_request))).
  reflexivity.
Defined.
